(** * heat/engine/template_common.py: CommonTemplate

    A shallow embedding of the common implementation for HOT and CFN
    templates: type validation of resource keys, resolution and caching of
    the template's conditions, and the application of resolved conditions to
    the outputs section.

    Python objects live in a store: a value is either immutable (None, a
    boolean, an integer, a string) or a reference to a mutable object
    (a dict, a list, an instance of heat.engine.function.Function).  The
    template instance carries its [_conditions] attribute; every method is a
    function from the state before the call to an outcome (a return value or
    a raised exception) and the state after it. *)

From Stdlib Require Import String ZArith List Bool Lia.
From stdpp Require Import base list.
Import ListNotations.

Open Scope string_scope.
Open Scope list_scope.

(** ** Python values and the object store *)

Abbreviation addr := nat.

Inductive value : Type :=
| VNone
| VBool (b : bool)
| VInt (z : Z)
| VStr (s : string)
| VRef (a : addr).

(** The objects with identity: a dict with string keys (its items in
    iteration order), a list, and a Function instance (its [fn_name] and
    [args], which is all this module ever learns about one). *)
Inductive object : Type :=
| ODict (items : list (string * value))
| OList (elems : list value)
| OFunc (fn_name : string) (args : value).

Inductive exn : Type :=
| TypeError (message : string)
| KeyError (key : value)
| ValueError (message : string)
| AttributeError (message : string)
| RuntimeError (message : string)
| InvalidConditionDefinition (cd : string) (definition : value)
| InvalidConditionReference (cd : value) (path : string).

Inductive outcome (A : Type) : Type :=
| Ok (a : A)
| Raise (e : exn).
Arguments Ok {A} a.
Arguments Raise {A} e.

(** [x == y] on immutable values (True and False are the integers 1 and
    0); two references are equal when they are the same object (the contents
    of two different objects are not compared). *)
Definition value_eqb (x y : value) : bool :=
  match x, y with
  | VNone, VNone => true
  | VBool a, VBool b => Bool.eqb a b
  | VInt a, VInt b => Z.eqb a b
  | VBool a, VInt b | VInt b, VBool a => Z.eqb (if a then 1 else 0) b
  | VStr a, VStr b => String.eqb a b
  | VRef a, VRef b => Nat.eqb a b
  | _, _ => false
  end.

(** *** dict items *)

Fixpoint dict_get (k : string) (d : list (string * value)) : option value :=
  match d with
  | [] => None
  | (k', v) :: d' => if String.eqb k k' then Some v else dict_get k d'
  end.

(** [d[k] = v]: an existing key keeps its place, a new key goes last. *)
Fixpoint dict_set (k : string) (v : value) (d : list (string * value))
  : list (string * value) :=
  match d with
  | [] => [(k, v)]
  | (k', v') :: d' =>
      if String.eqb k k' then (k, v) :: d' else (k', v') :: dict_set k v d'
  end.

Definition dict_mem (k : string) (d : list (string * value)) : bool :=
  match dict_get k d with Some _ => true | None => false end.

(** *** isinstance *)

(** The classes this module tests against or that its data belongs to.
    [T_str] stands for six.string_types, [T_Mapping] and [T_Sequence] for the
    abstract classes of [collections], [T_Function] for function.Function. *)
Inductive pytype : Type :=
| T_object | T_NoneType | T_bool | T_int | T_str | T_dict | T_list
| T_Mapping | T_Sequence | T_Function.

Definition pytype_eqb (s t : pytype) : bool :=
  match s, t with
  | T_object, T_object | T_NoneType, T_NoneType | T_bool, T_bool
  | T_int, T_int | T_str, T_str | T_dict, T_dict | T_list, T_list
  | T_Mapping, T_Mapping | T_Sequence, T_Sequence
  | T_Function, T_Function => true
  | _, _ => false
  end.

(** The class of a value; a reference outside the store has none. *)
Definition type_of (h : list object) (v : value) : option pytype :=
  match v with
  | VNone => Some T_NoneType
  | VBool _ => Some T_bool
  | VInt _ => Some T_int
  | VStr _ => Some T_str
  | VRef a =>
      match h !! a with
      | Some (ODict _) => Some T_dict
      | Some (OList _) => Some T_list
      | Some (OFunc _ _) => Some T_Function
      | None => None
      end
  end.

(** [issubclass c t]: bool is a subclass of int, str and list are
    sequences, dict is a mapping. *)
Definition issubclass (c t : pytype) : bool :=
  pytype_eqb c t ||
  match c, t with
  | _, T_object => true
  | T_bool, T_int => true
  | T_str, T_Sequence => true
  | T_list, T_Sequence => true
  | T_dict, T_Mapping => true
  | _, _ => false
  end.

(** [isinstance(v, valid_types)], [valid_types] a class or a tuple of
    classes, given as the list of its classes. *)
Definition isinstance (h : list object) (v : value) (valid_types : list pytype)
  : bool :=
  match type_of h v with
  | Some c => existsb (issubclass c) valid_types
  | None => false
  end.

(** The name of a class, as an error message shows it.  (A Function
    instance shows the name of its own subclass, which the store does not
    keep.) *)
Definition type_name (t : pytype) : string :=
  match t with
  | T_object => "object"
  | T_NoneType => "NoneType"
  | T_bool => "bool"
  | T_int => "int"
  | T_str => "str"
  | T_dict => "dict"
  | T_list => "list"
  | T_Mapping => "Mapping"
  | T_Sequence => "Sequence"
  | T_Function => "Function"
  end.

(** The exception of [v.name] for an attribute the class of [v] does not
    have. *)
Definition no_attribute (h : list object) (v : value) (name : string) : exn :=
  let class_name :=
    match type_of h v with Some t => type_name t | None => "object" end in
  AttributeError
    ("'" ++ class_name ++ "' object has no attribute '" ++ name ++ "'")%string.

Definition is_bool (v : value) : bool :=
  match v with VBool _ => true | _ => false end.

Definition is_ref (v : value) : bool :=
  match v with VRef _ => true | _ => false end.

(** Truth value of an object, as [not cd] tests it: None, False, zero, the
    empty string and empty containers are false. *)
Definition truthy (h : list object) (v : value) : bool :=
  match v with
  | VNone => false
  | VBool b => b
  | VInt z => negb (Z.eqb z 0)
  | VStr s => negb (String.eqb s "")
  | VRef a =>
      match h !! a with
      | Some (ODict []) => false
      | Some (OList []) => false
      | _ => true
      end
  end.

(** ** copy.deepcopy

    The standard library's deep copy, on the store.  Immutable values are
    returned as they are.  A mutable object is copied once: the memo maps the
    address of every object already met to the address of its copy, so shared
    and cyclic structure is copied as such.  The new object is allocated and
    entered in the memo before its items are copied, and filled with their
    copies afterwards.  A Function instance copies to its single-entry
    mapping form, which is what Function.__reduce__ makes of it. *)

Definition memo := list (addr * addr).

Fixpoint memo_get (a : addr) (m : memo) : option addr :=
  match m with
  | [] => None
  | (a', y) :: m' => if Nat.eqb a a' then Some y else memo_get a m'
  end.

Definition children (o : object) : list value :=
  match o with
  | ODict d => map snd d
  | OList l => l
  | OFunc _ args => [args]
  end.

Definition blank (o : object) : object :=
  match o with
  | ODict _ => ODict []
  | OList _ => OList []
  | OFunc _ _ => ODict []
  end.

Definition rebuild (o : object) (vs : list value) : object :=
  match o with
  | ODict d => ODict (combine (map fst d) vs)
  | OList _ => OList vs
  | OFunc fn_name _ => ODict (combine [fn_name] vs)
  end.

Section deepcopy_items.

Variable copy1 :
  value -> memo -> list object -> option (value * memo * list object).

Fixpoint deepcopy_items (vs : list value) (m : memo) (h : list object)
  : option (list value * memo * list object) :=
  match vs with
  | [] => Some ([], m, h)
  | v :: vs' =>
      match copy1 v m h with
      | Some (v', m1, h1) =>
          match deepcopy_items vs' m1 h1 with
          | Some (vs'', m2, h2) => Some (v' :: vs'', m2, h2)
          | None => None
          end
      | None => None
      end
  end.

End deepcopy_items.

(** [fuel] bounds the nesting of objects not yet in the memo; [None] is
    running out of it. *)
Fixpoint deepcopy_value (fuel : nat) (x : value) (m : memo) (h : list object)
  : option (value * memo * list object) :=
  match x with
  | VRef a =>
      match memo_get a m with
      | Some y => Some (VRef y, m, h)
      | None =>
          match h !! a with
          | None => Some (x, m, h)
          | Some o =>
              match fuel with
              | O => None
              | S f =>
                  let y := length h in
                  match deepcopy_items (deepcopy_value f) (children o)
                          ((a, y) :: m) (h ++ [blank o]) with
                  | Some (vs, m', h') =>
                      Some (VRef y, m', <[y := rebuild o vs]> h')
                  | None => None
                  end
              end
          end
      end
  | _ => Some (x, m, h)
  end.

(** No nesting is deeper than the number of objects in the store. *)
Definition deepcopy (x : value) (h : list object)
  : option (value * memo * list object) :=
  deepcopy_value (S (length h)) x [] h.

(** The image of a value under a memo, and of an object. *)
Definition rename (m : memo) (v : value) : value :=
  match v with
  | VRef a => match memo_get a m with Some y => VRef y | None => v end
  | _ => v
  end.

Definition copy_of (m : memo) (o : object) : object :=
  rebuild o (map (rename m) (children o)).

(** A store is closed when every reference held in an object is an address
    of the store. *)
Definition value_closed (n : nat) (v : value) : bool :=
  match v with VRef a => Nat.ltb a n | _ => true end.

Definition store_closed (h : list object) : bool :=
  forallb (fun o => forallb (value_closed (length h)) (children o)) h.

(** ** The template instance and its methods *)

(** The state a method runs in: the object store, the instance's
    [_conditions] attribute (None until the conditions are resolved), and the
    arguments of every call of function.resolve so far. *)
Record state : Type := mkState {
  heap : list object;
  _conditions : value;
  resolve_calls : list value
}.

Definition M (A : Type) : Type := state -> outcome A * state.

Definition ret {A} (a : A) : M A := fun st => (Ok a, st).

Definition raise {A} (e : exn) : M A := fun st => (Raise e, st).

Definition bind {A B} (c : M A) (k : A -> M B) : M B :=
  fun st =>
    match c st with
    | (Ok a, st') => k a st'
    | (Raise e, st') => (Raise e, st')
    end.

Notation "x <- c ;; k" := (bind c (fun x => k))
  (at level 100, c at next level, right associativity).
Notation "c ;;; k" := (bind c (fun _ => k))
  (at level 100, right associativity).

Definition set_heap (st : state) (h : list object) : state :=
  mkState h (_conditions st) (resolve_calls st).

(** What a method sees of a value without following references further:
    the value itself, or the object it refers to. *)
Inductive view : Type :=
| Immutable (v : value)
| Object (o : object).

Definition view_of (h : list object) (v : value) : view :=
  match v with
  | VRef a => match h !! a with Some o => Object o | None => Immutable v end
  | _ => Immutable v
  end.

(** [{}], [[]]: a new object. *)
Definition alloc (o : object) : M value :=
  fun st => (Ok (VRef (length (heap st))), set_heap st (heap st ++ [o])).

Fixpoint is_infix (s t : string) : bool :=
  String.prefix s t ||
  match t with
  | EmptyString => false
  | String _ t' => is_infix s t'
  end.

(** [key in container].  A mapping has string keys, so another hashable key
    is not in it; the store's objects are unhashable.  In a list the test is
    [==] on each element, in a string it is the substring test.  (Both
    containers this module tests are mappings.) *)
Definition contains (container key : value) : M bool :=
  fun st =>
    match view_of (heap st) container with
    | Object (ODict d) =>
        match key with
        | VStr k => (Ok (dict_mem k d), st)
        | VRef _ => (Raise (TypeError "unhashable type"), st)
        | _ => (Ok false, st)
        end
    | Object (OList l) => (Ok (existsb (value_eqb key) l), st)
    | Immutable (VStr s) =>
        match key with
        | VStr k => (Ok (is_infix k s), st)
        | _ =>
            (Raise (TypeError "'in <string>' requires string as left operand"),
             st)
        end
    | _ => (Raise (TypeError "argument is not iterable"), st)
    end.

(** [obj[key]].  Every subscript of this module is by a string (a class
    constant, or a key just found in the mapping). *)
Definition getitem (obj key : value) : M value :=
  fun st =>
    match view_of (heap st) obj with
    | Object (ODict d) =>
        match key with
        | VStr k =>
            match dict_get k d with
            | Some v => (Ok v, st)
            | None => (Raise (KeyError key), st)
            end
        | VRef _ => (Raise (TypeError "unhashable type"), st)
        | _ => (Raise (KeyError key), st)
        end
    | Object (OList _) | Immutable (VStr _) =>
        (Raise (TypeError "indices must be integers"), st)
    | _ => (Raise (TypeError "object is not subscriptable"), st)
    end.

(** [obj[key] = v], by a string key. *)
Definition setitem (obj : value) (key : string) (v : value) : M unit :=
  fun st =>
    match obj with
    | VRef a =>
        match heap st !! a with
        | Some (ODict d) =>
            (Ok tt, set_heap st (<[a := ODict (dict_set key v d)]> (heap st)))
        | Some (OList _) =>
            (Raise (TypeError "list indices must be integers"), st)
        | _ =>
            (Raise (TypeError "object does not support item assignment"), st)
        end
    | _ => (Raise (TypeError "object does not support item assignment"), st)
    end.

(** The methods CommonTemplate itself gives for the two hooks of a
    dialect. *)
Definition default_get_condition_definitions : list (string * value) := [].

Definition default_has_condition_section (snippet : view) : bool := false.

Section CommonTemplate.

(** The stack is passed on to [parse_condition] and never looked at. *)
Variable stack : Type.

(** Class constants of the concrete template. *)
Variables CONDITION RESOURCES RES_CONDITION : string.
Variables OUTPUTS OUTPUT_CONDITION OUTPUT_VALUE : string.

(** The two hooks a dialect overrides: the items of the mapping
    [get_condition_definitions()] returns, and [has_condition_section], a
    test on the snippet's own fields. *)
Variable get_condition_definitions : list (string * value).
Variable has_condition_section : view -> bool.

(** The function-evaluation subsystem: [Template.parse_condition] and
    [function.resolve].  Each reads the store, returns or raises, and may
    build new objects (given as the list it appends to the store); neither
    writes to an object that exists. *)
Variable parse_condition :
  stack -> value -> list object -> outcome value * list object.
Variable function_resolve :
  value -> list object -> outcome value * list object.

Definition call_parse_condition (s : stack) (cd_value : value) : M value :=
  fun st =>
    let '(r, new) := parse_condition s cd_value (heap st) in
    (r, set_heap st (heap st ++ new)).

Definition call_function_resolve (condition_func : value) : M value :=
  fun st =>
    let '(r, new) := function_resolve condition_func (heap st) in
    (r, mkState (heap st ++ new) (_conditions st)
          (resolve_calls st ++ [condition_func])).

(** *** validate_resource_key_type *)

Definition validate_resource_key_type (key : string)
    (valid_types : list pytype) (typename rsrc_name : string)
    (rsrc_data : value) : M bool :=
  present <- contains rsrc_data (VStr key) ;;
  if present : bool then
    v <- getitem rsrc_data (VStr key) ;;
    fun st =>
      if negb (isinstance (heap st) v valid_types) then
        let message :=
          ("Resource " ++ rsrc_name ++ " " ++ key ++ " type must be "
             ++ typename)%string in
        (Raise (TypeError message), st)
      else (Ok true, st)
  else ret false.

(** *** resolve_conditions *)

Fixpoint resolve_conditions_loop (s : stack) (result : value)
    (items : list (string * value)) : M unit :=
  match items with
  | [] => ret tt
  | (cd_key, cd_value) :: rest =>
      (if negb (is_bool cd_value) then
         condition_func <- call_parse_condition s cd_value ;;
         resolved_cd_value <- call_function_resolve condition_func ;;
         setitem result cd_key resolved_cd_value
       else setitem result cd_key cd_value) ;;;
      resolve_conditions_loop s result rest
  end.

Definition resolve_conditions (s : stack) : M value :=
  let cd_snippet := get_condition_definitions in
  result <- alloc (ODict []) ;;
  resolve_conditions_loop s result cd_snippet ;;;
  ret result.

(** *** validate_condition_definitions *)

Fixpoint check_condition_definitions (items : list (string * value))
  : M unit :=
  match items with
  | [] => ret tt
  | (cd_key, cd_value) :: rest =>
      if negb (is_bool cd_value) then
        raise (InvalidConditionDefinition cd_key cd_value)
      else check_condition_definitions rest
  end.

Definition validate_condition_definitions (s : stack) : M unit :=
  resolved_cds <- resolve_conditions s ;;
  fun st =>
    if truthy (heap st) resolved_cds then
      match view_of (heap st) resolved_cds with
      | Object (ODict d) => check_condition_definitions d st
      | _ => (Raise (no_attribute (heap st) resolved_cds "items"), st)
      end
    else (Ok tt, st).

(** *** conditions *)

Definition conditions (s : stack) : M value :=
  fun st =>
    match _conditions st with
    | VNone =>
        match resolve_conditions s st with
        | (Ok r, st') =>
            let st'' := mkState (heap st') r (resolve_calls st') in
            (Ok (_conditions st''), st'')
        | (Raise e, st') => (Raise e, st')
        end
    | cds => (Ok cds, st)
    end.

(** *** get_condition, get_res_condition, get_output_condition *)

Definition get_condition (snippet : value) (s : stack) (path : string)
  : M value :=
  fun st =>
    if has_condition_section (view_of (heap st) snippet) then
      (cd_key <- getitem snippet (VStr CONDITION) ;;
       cds <- conditions s ;;
       present <- contains cds cd_key ;;
       if negb present then raise (InvalidConditionReference cd_key path)
       else
         cd <- getitem cds cd_key ;;
         ret cd) st
    else (Ok (VBool true), st).

Definition get_res_condition (s : stack) (res_data : value)
    (res_name : string) : M value :=
  fun st =>
    let path :=
      if has_condition_section (view_of (heap st) res_data)
      then String.concat "." [RESOURCES; res_name; RES_CONDITION]
      else "" in
    get_condition res_data s path st.

Definition get_output_condition (s : stack) (o_data : value)
    (o_key : string) : M value :=
  let path := String.concat "." [OUTPUTS; o_key; OUTPUT_CONDITION] in
  get_condition o_data s path.

(** *** parse_outputs_conditions *)

(** The body of the loop, for one item of the copy. *)
Definition apply_output_condition (s : stack) (key : string)
    (snippet : value) : M unit :=
  fun st =>
    if has_condition_section (view_of (heap st) snippet) then
      (cd <- get_output_condition s snippet key ;;
       setitem snippet OUTPUT_CONDITION cd ;;;
       fun st' =>
         if negb (truthy (heap st') cd)
         then setitem snippet OUTPUT_VALUE VNone st'
         else (Ok tt, st')) st
    else (Ok tt, st).

(** [for key, snippet in six.iteritems(copy_outputs)]: the iterator reads
    the dict as it is at each step, item [i] after item [i - 1], and raises
    when the dict no longer has the [used] entries it started with. *)
Fixpoint iter_outputs (s : stack) (copy_outputs : addr) (used i fuel : nat)
  : M unit :=
  fun st =>
    match heap st !! copy_outputs with
    | Some (ODict d) =>
        if negb (Nat.eqb (length d) used) then
          (Raise (RuntimeError "dictionary changed size during iteration"),
           st)
        else
          match d !! i, fuel with
          | Some (key, snippet), S fuel' =>
              (apply_output_condition s key snippet ;;;
               iter_outputs s copy_outputs used (S i) fuel') st
          | _, _ => (Ok tt, st)
          end
    | _ => (Ok tt, st)
    end.

(** [six.iteritems(copy_outputs)] is [iter(copy_outputs.items())]: only a
    dict has the method. *)
Definition for_outputs (s : stack) (copy_outputs : value) : M unit :=
  fun st =>
    match view_of (heap st) copy_outputs, copy_outputs with
    | Object (ODict d), VRef c => iter_outputs s c (length d) 0 (length d) st
    | _, _ => (Raise (no_attribute (heap st) copy_outputs "items"), st)
    end.

(** [None] only if the deep copy runs out of fuel. *)
Definition parse_outputs_conditions (outputs : value) (s : stack)
    (st : state) : option (outcome value * state) :=
  match deepcopy outputs (heap st) with
  | Some (copy_outputs, _, h) =>
      Some ((for_outputs s copy_outputs ;;; ret copy_outputs) (set_heap st h))
  | None => None
  end.

End CommonTemplate.

(** ** _validate_resource_definition *)

Section ResourceDefinition.

(** Class constants of the concrete template: the keys of a resource
    definition. *)
Variables RES_TYPE RES_PROPERTIES RES_METADATA RES_DEPENDS_ON : string.
Variables RES_DELETION_POLICY RES_UPDATE_POLICY RES_DESCRIPTION : string.

Definition double_quote : string :=
  String (Ascii.ascii_of_nat 34) EmptyString.

Definition _validate_resource_definition (name : string) (data : value)
  : M unit :=
  present <- validate_resource_key_type RES_TYPE [T_str] "string" name data ;;
  if negb present then
    let msg :=
      ("Resource " ++ name ++ " is missing " ++ double_quote ++ RES_TYPE
         ++ double_quote)%string in
    raise (KeyError (VStr msg))
  else
    validate_resource_key_type RES_PROPERTIES [T_Mapping; T_Function]
      "object" name data ;;;
    validate_resource_key_type RES_METADATA [T_Mapping; T_Function]
      "object" name data ;;;
    validate_resource_key_type RES_DEPENDS_ON [T_Sequence]
      "list or string" name data ;;;
    validate_resource_key_type RES_DELETION_POLICY [T_str; T_Function]
      "string" name data ;;;
    validate_resource_key_type RES_UPDATE_POLICY [T_Mapping; T_Function]
      "object" name data ;;;
    validate_resource_key_type RES_DESCRIPTION [T_str]
      "string" name data ;;;
    ret tt.

(** The keys the method looks at, in the order it checks them, each with
    its valid types and the name the error gives them. *)
Definition resource_schema : list (string * list pytype * string) :=
  [(RES_TYPE, [T_str], "string");
   (RES_PROPERTIES, [T_Mapping; T_Function], "object");
   (RES_METADATA, [T_Mapping; T_Function], "object");
   (RES_DEPENDS_ON, [T_Sequence], "list or string");
   (RES_DELETION_POLICY, [T_str; T_Function], "string");
   (RES_UPDATE_POLICY, [T_Mapping; T_Function], "object");
   (RES_DESCRIPTION, [T_str], "string")].

(** A key that is absent, or whose value is of a valid type. *)
Definition field_ok (h : list object) (d : list (string * value))
    (e : string * list pytype * string) : bool :=
  match dict_get (fst (fst e)) d with
  | None => true
  | Some v => isinstance h v (snd (fst e))
  end.

Definition type_error (name : string) (e : string * list pytype * string)
  : exn :=
  TypeError ("Resource " ++ name ++ " " ++ fst (fst e) ++ " type must be "
               ++ snd e)%string.

Definition missing_type_error (name : string) : exn :=
  KeyError (VStr ("Resource " ++ name ++ " is missing " ++ double_quote
                    ++ RES_TYPE ++ double_quote)%string).

End ResourceDefinition.

(** ** Reachability and regions of the store *)


(** A value that is immutable or refers into the addresses from [lo] up to
    [hi]. *)
Definition in_region (lo hi : nat) (v : value) : Prop :=
  match v with VRef b => lo <= b < hi | _ => True end.

(** The objects at the addresses from [lo] up to [hi] refer to each other
    only. *)
Definition region_closed (lo hi : nat) (h : list object) : Prop :=
  forall y o v,
    lo <= y < hi -> h !! y = Some o -> In v (children o) -> in_region lo hi v.


(** The addresses referred to by the values of a list. *)
Definition refs (vs : list value) : list addr :=
  flat_map (fun v => match v with VRef a => [a] | _ => [] end) vs.

(** ** Facts about dict items and the store *)

Lemma dict_get_set_eq k v d : dict_get k (dict_set k v d) = Some v.
Proof.
  induction d as [|[k' v'] d IH]; cbn.
  - now rewrite String.eqb_refl.
  - destruct (String.eqb k k') eqn:E; cbn; rewrite ?String.eqb_refl, ?E; auto.
Qed.

Lemma dict_get_None_keys k d : dict_get k d = None <-> ~ In k (map fst d).
Proof.
  induction d as [|[k' v] d IH]; cbn; [tauto|].
  destruct (String.eqb k k') eqn:E.
  - apply String.eqb_eq in E. subst. split; [discriminate|]. tauto.
  - apply String.eqb_neq in E. rewrite IH. split; [|tauto].
    intros H [Heq|Hin]; [congruence|tauto].
Qed.

Lemma dict_set_fresh k v d :
  dict_get k d = None -> dict_set k v d = d ++ [(k, v)].
Proof.
  induction d as [|[k' v'] d IH]; cbn; [reflexivity|].
  destruct (String.eqb k k'); [discriminate|]. intros H. now rewrite IH.
Qed.

Lemma dict_get_set_ne k k' v d :
  k <> k' -> dict_get k' (dict_set k v d) = dict_get k' d.
Proof.
  intros Hne. induction d as [|[k0 v0] d IH]; cbn.
  - destruct (String.eqb k' k) eqn:E; [|reflexivity].
    apply String.eqb_eq in E. congruence.
  - destruct (String.eqb k k0) eqn:E; cbn.
    + apply String.eqb_eq in E. subst k0.
      destruct (String.eqb k' k) eqn:E'; [|reflexivity].
      apply String.eqb_eq in E'. congruence.
    + now rewrite IH.
Qed.

Lemma dict_set_In k v d kv :
  In kv (dict_set k v d) -> kv = (k, v) \/ In kv d.
Proof.
  induction d as [|[k' v'] d IH]; cbn.
  - intros [<-|[]]. now left.
  - destruct (String.eqb k k'); cbn; intros [<-|H]; auto.
    destruct (IH H); auto.
Qed.


Lemma lookup_middle (h0 : list object) o k :
  (h0 ++ o :: k) !! length h0 = Some o.
Proof. now rewrite list_lookup_middle. Qed.

Lemma insert_middle (h0 : list object) o o' k :
  <[length h0 := o']> (h0 ++ o :: k) = h0 ++ o' :: k.
Proof.
  rewrite insert_app_r_alt by lia. now rewrite Nat.sub_diag.
Qed.

(** ** Facts about the deep copy *)

Lemma memo_get_cons a b y m :
  memo_get a ((b, y) :: m) = if Nat.eqb a b then Some y else memo_get a m.
Proof. reflexivity. Qed.

(** [m'] keeps every entry of [m]. *)
Definition memo_extends (m m' : memo) : Prop :=
  forall a y, memo_get a m = Some y -> memo_get a m' = Some y.

Lemma memo_extends_refl m : memo_extends m m.
Proof. now intros a y. Qed.

Lemma memo_extends_trans m1 m2 m3 :
  memo_extends m1 m2 -> memo_extends m2 m3 -> memo_extends m1 m3.
Proof. intros H1 H2 a y H. auto. Qed.

Lemma memo_extends_cons a y m :
  memo_get a m = None -> memo_extends m ((a, y) :: m).
Proof.
  intros Hnone b z Hb. rewrite memo_get_cons.
  destruct (Nat.eqb b a) eqn:E; [|exact Hb].
  apply Nat.eqb_eq in E. congruence.
Qed.

(** Every reference among [vs] is in the memo. *)
Definition covers (m : memo) (vs : list value) : Prop :=
  forall b, In (VRef b) vs -> memo_get b m <> None.

Lemma rename_extends m m' v :
  memo_extends m m' -> (forall b, v = VRef b -> memo_get b m <> None) ->
  rename m' v = rename m v.
Proof.
  intros Hext Hcov. destruct v as [| | | |b]; try reflexivity. cbn.
  destruct (memo_get b m) as [y|] eqn:Hb.
  - now rewrite (Hext _ _ Hb).
  - now destruct (Hcov b eq_refl).
Qed.

Lemma map_rename_extends m m' vs :
  memo_extends m m' -> covers m vs ->
  map (rename m') vs = map (rename m) vs.
Proof.
  intros Hext Hcov. apply map_ext_in. intros v Hv.
  apply rename_extends; [exact Hext|]. intros b ->. now apply Hcov.
Qed.

Lemma covers_extends m m' vs :
  memo_extends m m' -> covers m vs -> covers m' vs.
Proof.
  intros Hext Hcov b Hb. specialize (Hcov b Hb).
  destruct (memo_get b m) as [y|] eqn:E; [|congruence].
  now rewrite (Hext _ _ E).
Qed.

(** The number of addresses below [n] that are not in the memo. *)
Definition unmemoized (n : nat) (m : memo) : nat :=
  length (List.filter
            (fun a => match memo_get a m with None => true | _ => false end)
            (List.seq 0 n)).

Lemma filter_length_mono {A} (f g : A -> bool) l :
  (forall x, g x = true -> f x = true) ->
  length (List.filter g l) <= length (List.filter f l).
Proof.
  intros Hfg. induction l as [|x l IH]; cbn; [lia|].
  destruct (g x) eqn:Hg.
  - rewrite (Hfg x Hg). cbn. lia.
  - destruct (f x); cbn; lia.
Qed.

Lemma filter_length_lt {A} (f g : A -> bool) l x :
  (forall x, g x = true -> f x = true) ->
  In x l -> f x = true -> g x = false ->
  length (List.filter g l) < length (List.filter f l).
Proof.
  intros Hfg. induction l as [|z l IH]; cbn; [intros []|].
  intros [->|Hin] Hf Hg.
  - rewrite Hf, Hg. cbn.
    pose proof (filter_length_mono f g l Hfg). lia.
  - specialize (IH Hin Hf Hg). destruct (g z) eqn:Hgz.
    + rewrite (Hfg z Hgz). cbn. lia.
    + destruct (f z); cbn; lia.
Qed.

Lemma unmemoized_extends n m m' :
  memo_extends m m' -> unmemoized n m' <= unmemoized n m.
Proof.
  intros Hext. apply filter_length_mono. intros a.
  destruct (memo_get a m) as [y|] eqn:E; [|reflexivity].
  now rewrite (Hext _ _ E).
Qed.

Lemma unmemoized_cons n a y m :
  a < n -> memo_get a m = None ->
  unmemoized n ((a, y) :: m) < unmemoized n m.
Proof.
  intros Han Hnone. apply filter_length_lt with (x := a).
  - intros b. rewrite memo_get_cons. destruct (Nat.eqb b a); [discriminate|].
    auto.
  - apply in_seq. lia.
  - now rewrite Hnone.
  - now rewrite memo_get_cons, Nat.eqb_refl.
Qed.

Lemma store_closed_children h a o v :
  store_closed h = true -> h !! a = Some o -> In v (children o) ->
  value_closed (length h) v = true.
Proof.
  unfold store_closed. intros Hc Ha Hv.
  rewrite forallb_forall in Hc.
  assert (Hin : In o h).
  { apply list_elem_of_In, list_elem_of_lookup. eauto. }
  specialize (Hc o Hin). rewrite forallb_forall in Hc. auto.
Qed.

Section DeepcopyInvariant.

(** The store the copy starts from. *)
Variable h0 : list object.
Hypothesis h0_closed : store_closed h0 = true.

(** The memo maps addresses of [h0] to addresses allocated since, one to
    one, and every address allocated since is the copy of one of [h0]. *)
Definition memo_ok (m : memo) (h : list object) : Prop :=
  (forall a y, memo_get a m = Some y ->
     a < length h0 /\ length h0 <= y < length h) /\
  (forall a b y, memo_get a m = Some y -> memo_get b m = Some y -> a = b) /\
  (forall y, length h0 <= y < length h -> exists a, memo_get a m = Some y).

(** The copy of [a] at [y] is finished. *)
Definition complete (m : memo) (h : list object) (a y : addr) : Prop :=
  exists o,
    h0 !! a = Some o /\ h !! y = Some (copy_of m o) /\ covers m (children o).

(** Every object in the memo is copied, but for those still being filled. *)
Definition copied (pending : addr -> Prop) (m : memo) (h : list object)
  : Prop :=
  forall a y, memo_get a m = Some y -> pending a \/ complete m h a y.

Definition copy_pre (pending : addr -> Prop) (m : memo) (h : list object)
  : Prop :=
  (exists k, h = h0 ++ k) /\ memo_ok m h /\ copied pending m h.

Definition copy_post (pending : addr -> Prop) (m : memo) (h : list object)
    (m' : memo) (h' : list object) : Prop :=
  (exists k, h' = h ++ k) /\ copy_pre pending m' h' /\ memo_extends m m'.

Definition deepcopy_value_spec (fuel : nat) : Prop :=
  forall x m h pending,
    copy_pre pending m h ->
    value_closed (length h0) x = true ->
    unmemoized (length h0) m < fuel ->
    exists x' m' h',
      deepcopy_value fuel x m h = Some (x', m', h') /\
      copy_post pending m h m' h' /\
      x' = rename m' x /\
      (forall b, x = VRef b -> memo_get b m' <> None).

Lemma copy_post_refl pending m h :
  copy_pre pending m h -> copy_post pending m h m h.
Proof.
  intros H. split; [exists []; now rewrite app_nil_r|].
  split; [exact H|apply memo_extends_refl].
Qed.

Lemma copy_post_trans pending m h m1 h1 m2 h2 :
  copy_post pending m h m1 h1 -> copy_post pending m1 h1 m2 h2 ->
  copy_post pending m h m2 h2.
Proof.
  intros ([k1 ->] & _ & He1) ([k2 ->] & Hpre & He2).
  split; [exists (k1 ++ k2); now rewrite app_assoc|].
  split; [exact Hpre|eapply memo_extends_trans; eauto].
Qed.

Lemma deepcopy_items_inv f :
  deepcopy_value_spec f ->
  forall vs m h pending,
    copy_pre pending m h ->
    (forall v, In v vs -> value_closed (length h0) v = true) ->
    unmemoized (length h0) m < f ->
    exists vs' m' h',
      deepcopy_items (deepcopy_value f) vs m h = Some (vs', m', h') /\
      copy_post pending m h m' h' /\
      vs' = map (rename m') vs /\
      covers m' vs.
Proof.
  intros IHf vs. induction vs as [|v vs IH]; intros m h pending Hpre Hcl Hf.
  - exists [], m, h. cbn. split; [reflexivity|].
    split; [now apply copy_post_refl|]. split; [reflexivity|].
    intros b [].
  - destruct (IHf v m h pending Hpre (Hcl v (or_introl eq_refl)) Hf)
      as (v' & m1 & h1 & Hv & Hpost1 & -> & Hcov1).
    assert (Hpre1 : copy_pre pending m1 h1) by apply Hpost1.
    assert (Hext1 : memo_extends m m1) by apply Hpost1.
    destruct (IH m1 h1 pending Hpre1) as (vs' & m2 & h2 & Hvs & Hpost2 & -> & Hcov2).
    { intros w Hw. apply Hcl. now right. }
    { pose proof (unmemoized_extends (length h0) _ _ Hext1). lia. }
    assert (Hext2 : memo_extends m1 m2) by apply Hpost2.
    exists (rename m1 v :: map (rename m2) vs), m2, h2.
    cbn. rewrite Hv, Hvs. split; [reflexivity|].
    split; [eapply copy_post_trans; eauto|]. split.
    + f_equal. symmetry. now apply rename_extends.
    + intros b [->|Hb]; [|now apply Hcov2].
      specialize (Hcov1 b eq_refl).
      destruct (memo_get b m1) as [y|] eqn:E; [|congruence].
      now rewrite (Hext2 _ _ E).
Qed.

Lemma deepcopy_value_inv fuel : deepcopy_value_spec fuel.
Proof.
  induction fuel as [|fuel IHfuel]; intros x m h pending Hpre Hcl Hf; [lia|].
  destruct x as [| | | |a];
    try (eexists _, m, h; cbn; split; [reflexivity|];
         split; [now apply copy_post_refl|]; split; [reflexivity|];
         intros ? Hb; discriminate Hb).
  cbn in Hcl. apply Nat.ltb_lt in Hcl. cbn [deepcopy_value].
  destruct (memo_get a m) as [y|] eqn:Hm.
  { exists (VRef y), m, h. split; [reflexivity|].
    split; [now apply copy_post_refl|]. cbn. rewrite Hm.
    split; [reflexivity|]. intros b [= <-]. congruence. }
  destruct Hpre as ([k ->] & (Hrange & Hinj & Hsurj) & Hcp).
  destruct (lookup_lt_is_Some_2 h0 a Hcl) as [o Ho].
  rewrite (lookup_app_l_Some _ _ _ _ Ho).
  remember (length (h0 ++ k)) as y eqn:Hy.
  assert (Hext1 : memo_extends m ((a, y) :: m))
    by now apply memo_extends_cons.
  destruct (deepcopy_items_inv fuel IHfuel (children o) ((a, y) :: m)
              ((h0 ++ k) ++ [blank o]) (fun b => pending b \/ b = a))
    as (vs' & m2 & h2 & Hitems & ([k2 Hh2] & Hpre2 & Hext2) & Hvs & Hcov).
  { split; [exists (k ++ [blank o]); now rewrite app_assoc|]. split.
    - split; [|split].
      + intros b yb. rewrite memo_get_cons.
        rewrite length_app. cbn [length].
        destruct (Nat.eqb b a) eqn:E.
        * apply Nat.eqb_eq in E. intros [= <-]. subst b.
          rewrite Hy, length_app. lia.
        * intros Hb. destruct (Hrange _ _ Hb). lia.
      + intros b c yb. rewrite !memo_get_cons.
        destruct (Nat.eqb b a) eqn:Eb; destruct (Nat.eqb c a) eqn:Ec;
          try apply Nat.eqb_eq in Eb; try apply Nat.eqb_eq in Ec.
        * congruence.
        * intros [= <-] Hc. destruct (Hrange _ _ Hc). lia.
        * intros Hb [= <-]. destruct (Hrange _ _ Hb). lia.
        * apply Hinj.
      + intros yb. rewrite length_app. cbn [length]. intros Hyb.
        destruct (Nat.eq_dec yb y) as [Heq|Hne].
        * exists a. now rewrite memo_get_cons, Nat.eqb_refl, Heq.
        * destruct (Hsurj yb) as [b Hb]; [lia|].
          exists b. now apply Hext1.
    - intros b yb. rewrite memo_get_cons.
      destruct (Nat.eqb b a) eqn:E.
      + apply Nat.eqb_eq in E. intros _. left. now right.
      + intros Hb. destruct (Hcp _ _ Hb) as [Hp|(o' & Ho' & Hy' & Hc')].
        * left. now left.
        * right. exists o'. split; [exact Ho'|]. split.
          -- rewrite lookup_app_l by (destruct (Hrange _ _ Hb); lia).
             rewrite Hy'. unfold copy_of.
             now rewrite (map_rename_extends m ((a, y) :: m)).
          -- now apply (covers_extends m). }
  { intros v Hv. eapply store_closed_children; eauto. }
  { pose proof (unmemoized_cons (length h0) a y m Hcl Hm). lia. }
  assert (Hay : memo_get a m2 = Some y).
  { apply Hext2. now rewrite memo_get_cons, Nat.eqb_refl. }
  assert (Hh' : <[y := rebuild o vs']> h2
                = (h0 ++ k) ++ rebuild o vs' :: k2).
  { rewrite Hh2, <- app_assoc, Hy. cbn. apply insert_middle. }
  exists (VRef y), m2, (<[y := rebuild o vs']> h2).
  rewrite Hitems. split; [reflexivity|]. split; [|split].
  - destruct Hpre2 as (_ & (Hrange2 & Hinj2 & Hsurj2) & Hcp2).
    split; [exists (rebuild o vs' :: k2); exact Hh'|]. split; [|
      eapply memo_extends_trans; eauto].
    split; [exists (k ++ rebuild o vs' :: k2);
            now rewrite Hh', <- app_assoc|].
    split.
    + unfold memo_ok. rewrite length_insert. split; [exact Hrange2|].
      split; [exact Hinj2|exact Hsurj2].
    + intros b yb Hb. destruct (Nat.eq_dec b a) as [->|Hne].
      * right. rewrite Hay in Hb. injection Hb as <-.
        exists o. split; [exact Ho|]. split; [|exact Hcov].
        rewrite Hh', Hy, lookup_middle. unfold copy_of. now rewrite Hvs.
      * destruct (Hcp2 _ _ Hb) as [[Hp|Heq]|(o' & Ho' & Hy' & Hc')];
          [now left|contradiction|].
        right. exists o'. split; [exact Ho'|]. split; [|exact Hc'].
        rewrite list_lookup_insert_ne; [exact Hy'|].
        intros <-. apply Hne. eapply Hinj2; eauto.
  - cbn. now rewrite Hay.
  - intros b [= <-]. congruence.
Qed.

End DeepcopyInvariant.

(** The deep copy of a closed store's value: it returns, the store before
    the call is a prefix of the store after it, and the final memo is a
    one-to-one renaming of the objects met, onto the objects allocated, each
    of which is the image of its original. *)
Lemma deepcopy_spec h x :
  store_closed h = true -> value_closed (length h) x = true ->
  exists m h',
    deepcopy x h = Some (rename m x, m, h') /\
    (exists k, h' = h ++ k) /\
    memo_ok h m h' /\
    (forall a y, memo_get a m = Some y -> complete h m h' a y) /\
    (forall b, x = VRef b -> memo_get b m <> None).
Proof.
  intros Hc Hx.
  destruct (deepcopy_value_inv h Hc (S (length h)) x [] h (fun _ => False))
    as (x' & m & h' & Hd & (Hk & (_ & Hok & Hcp) & _) & -> & Hcov).
  - split; [exists []; now rewrite app_nil_r|]. split.
    + split; [discriminate|]. split; [discriminate|]. intros y. lia.
    + discriminate.
  - exact Hx.
  - unfold unmemoized.
    match goal with |- length (List.filter ?f ?l) < _ =>
      pose proof (List.filter_length_le f l) as Hle end.
    rewrite length_seq in Hle. lia.
  - exists m, h'. split; [exact Hd|]. split; [exact Hk|].
    split; [exact Hok|]. split; [|exact Hcov].
    intros a y Hay. destruct (Hcp a y Hay) as [[]|H]. exact H.
Qed.

Lemma children_rebuild o vs :
  length vs = length (children o) -> children (rebuild o vs) = vs.
Proof.
  destruct o as [d|l|n a]; cbn; intros Hlen.
  - rewrite length_map, <- (length_map fst d) in Hlen.
    generalize dependent (map fst d). intros ks. revert vs.
    induction ks as [|k ks IH]; intros [|v vs]; cbn; try discriminate; auto.
    intros [= H]. now rewrite IH.
  - reflexivity.
  - destruct vs as [|v [|w vs]]; try discriminate. reflexivity.
Qed.

Lemma children_copy_of m o :
  children (copy_of m o) = map (rename m) (children o).
Proof. apply children_rebuild. now rewrite length_map. Qed.

Lemma copy_of_dict m d :
  copy_of m (ODict d) = ODict (map (fun kv => (fst kv, rename m (snd kv))) d).
Proof.
  unfold copy_of. cbn. f_equal.
  induction d as [|[k v] d IH]; cbn; [reflexivity|]. now rewrite IH.
Qed.

(** ** Facts about the methods *)

Section CommonTemplateFacts.

Variable stack : Type.
Variables CONDITION RESOURCES RES_CONDITION : string.
Variables OUTPUTS OUTPUT_CONDITION OUTPUT_VALUE : string.
Variable get_condition_definitions : list (string * value).
Variable has_condition_section : view -> bool.
Variable parse_condition :
  stack -> value -> list object -> outcome value * list object.
Variable function_resolve :
  value -> list object -> outcome value * list object.

Local Abbreviation resolve_conditions_loop' :=
  (resolve_conditions_loop stack parse_condition function_resolve).
Local Abbreviation resolve_conditions' :=
  (resolve_conditions stack get_condition_definitions parse_condition
     function_resolve).
Local Abbreviation conditions' :=
  (conditions stack get_condition_definitions parse_condition
     function_resolve).
Local Abbreviation get_condition' :=
  (get_condition stack CONDITION get_condition_definitions
     has_condition_section parse_condition function_resolve).

#[local] Arguments setitem : simpl never.

Lemma setitem_middle h0 d k cond calls key v :
  setitem (VRef (length h0)) key v (mkState (h0 ++ ODict d :: k) cond calls)
  = (Ok tt, mkState (h0 ++ ODict (dict_set key v d) :: k) cond calls).
Proof.
  unfold setitem, set_heap; cbn [heap _conditions resolve_calls].
  now rewrite lookup_middle, insert_middle.
Qed.

(** The loop of [resolve_conditions] only appends to the store and sets
    items of [result]; each item it sets is a boolean of the definitions or
    a value [function.resolve] returned. *)
Lemma resolve_conditions_loop_inv (P : value -> Prop) s :
  (forall cf h r new, function_resolve cf h = (Ok r, new) -> P r) ->
  forall items h0 d k cond calls out st',
    resolve_conditions_loop' s (VRef (length h0)) items
      (mkState (h0 ++ ODict d :: k) cond calls) = (out, st') ->
    exists d' k' calls',
      st' = mkState (h0 ++ ODict d' :: k') cond (calls ++ calls') /\
      (forall kv, In kv d' ->
         In kv d \/ is_bool (snd kv) = true \/ P (snd kv)).
Proof.
  intros HP items.
  induction items as [|[cd_key cd_value] rest IH];
    intros h0 d k cond calls out st'; cbn.
  - intros [= <- <-]. exists d, k, []. rewrite app_nil_r. auto.
  - destruct (is_bool cd_value) eqn:Hb; cbn.
    + unfold bind at 1. intros Hrest. rewrite setitem_middle in Hrest.
      apply IH in Hrest as (d' & k' & calls' & -> & Hd').
      exists d', k', calls'. split; [reflexivity|].
      intros kv Hkv. destruct (Hd' kv Hkv) as [Hin|H]; [|now right].
      apply dict_set_In in Hin as [->|Hin]; [|now left].
      right; left. exact Hb.
    + unfold bind at 1. unfold bind at 1.
      unfold call_parse_condition at 1. cbn.
      destruct (parse_condition s cd_value (h0 ++ ODict d :: k))
        as [[cf|e] new1]; cbn.
      * unfold bind at 1. unfold call_function_resolve at 1. cbn.
        destruct (function_resolve cf ((h0 ++ ODict d :: k) ++ new1))
          as [[r|e] new2] eqn:Hr; cbn.
        -- replace (((h0 ++ ODict d :: k) ++ new1) ++ new2)
             with (h0 ++ ODict d :: (k ++ new1 ++ new2))
             by (now rewrite <- !app_assoc).
           intros Hrest. rewrite setitem_middle in Hrest.
           apply IH in Hrest as (d' & k' & calls' & -> & Hd').
           exists d', k', (cf :: calls'). split.
           { now rewrite <- app_assoc. }
           intros kv Hkv. destruct (Hd' kv Hkv) as [Hin|H]; [|now right].
           apply dict_set_In in Hin as [->|Hin]; [|now left].
           right; right. cbn. eapply HP, Hr.
        -- intros [= <- <-].
           exists d, (k ++ new1 ++ new2), [cf]. split; [|auto].
           now rewrite <- !app_assoc.
      * intros [= <- <-]. exists d, (k ++ new1), []. split; [|auto].
        now rewrite <- !app_assoc, app_nil_r.
Qed.

(** What a call of [resolve_conditions] does to the state. *)
Lemma resolve_conditions_inv (P : value -> Prop) s st out st' :
  (forall cf h r new, function_resolve cf h = (Ok r, new) -> P r) ->
  resolve_conditions' s st = (out, st') ->
  exists d k calls',
    st' = mkState (heap st ++ ODict d :: k) (_conditions st)
            (resolve_calls st ++ calls') /\
    (forall kv, In kv d -> is_bool (snd kv) = true \/ P (snd kv)) /\
    (forall r, out = Ok r -> r = VRef (length (heap st))).
Proof.
  intros HP. unfold resolve_conditions. unfold bind at 1, alloc at 1. cbn.
  unfold bind at 1.
  destruct (resolve_conditions_loop' s (VRef (length (heap st)))
              get_condition_definitions
              (set_heap st (heap st ++ [ODict []]))) as [[[]|e] st1] eqn:Hl;
    unfold set_heap in Hl;
    eapply (resolve_conditions_loop_inv P s HP _ _ [] []) in Hl
      as (d' & k' & calls' & -> & Hd');
    intros [= <- <-]; exists d', k', calls';
    (split; [reflexivity|]); (split; [|now intros r [= <-]]);
    intros kv Hkv; destruct (Hd' kv Hkv) as [[]|H]; exact H.
Qed.

(** A successful [resolve_conditions] returns the new mapping. *)
Lemma resolve_conditions_ok s st r st' :
  resolve_conditions' s st = (Ok r, st') ->
  exists d k calls',
    r = VRef (length (heap st)) /\
    st' = mkState (heap st ++ ODict d :: k) (_conditions st)
            (resolve_calls st ++ calls').
Proof.
  intros H.
  apply (resolve_conditions_inv (fun _ => True)) in H
    as (d & k & calls' & -> & _ & Hr); [|auto].
  exists d, k, calls'. split; [now apply Hr|reflexivity].
Qed.

Lemma resolve_conditions_loop_app s result pre rest st :
  resolve_conditions_loop' s result (pre ++ rest) st =
    match resolve_conditions_loop' s result pre st with
    | (Ok _, st1) => resolve_conditions_loop' s result rest st1
    | (Raise e, st1) => (Raise e, st1)
    end.
Proof.
  revert st. induction pre as [|[cd_key cd_value] pre IH]; intros st.
  - reflexivity.
  - cbn [app resolve_conditions_loop].
    set (step := if negb (is_bool cd_value) then _ else _).
    unfold bind. destruct (step st) as [[[]|e] st1]; [apply IH|reflexivity].
Qed.

(** C5: validate_resource_key_type on a mapping: False when the key is
    absent, True when its value is an instance of one of the valid types,
    and otherwise a TypeError whose message names the resource, the key and
    the expected type; the state is never changed. *)
Theorem validate_resource_key_type_spec
    key valid_types typename rsrc_name a d st :
  heap st !! a = Some (ODict d) ->
  validate_resource_key_type key valid_types typename rsrc_name (VRef a) st =
    match dict_get key d with
    | None => (Ok false, st)
    | Some v =>
        if isinstance (heap st) v valid_types then (Ok true, st)
        else (Raise (TypeError ("Resource " ++ rsrc_name ++ " " ++ key
                                  ++ " type must be " ++ typename)%string),
              st)
    end.
Proof.
  intros Hd. unfold validate_resource_key_type, bind, contains, getitem, ret.
  cbn. rewrite Hd. unfold dict_mem.
  destruct (dict_get key d) as [v|] eqn:Hk; cbn; [|reflexivity].
  rewrite Hd, Hk. now destruct (isinstance (heap st) v valid_types).
Qed.

(** C1 (amended): after the first call of conditions(stack), every entry of
    the cached mapping is a boolean, provided function.resolve returns
    nothing but booleans. *)
Theorem conditions_cache_boolean s st cds st' :
  (forall cf h r new,
     function_resolve cf h = (Ok r, new) -> is_bool r = true) ->
  _conditions st = VNone ->
  conditions' s st = (Ok cds, st') ->
  exists r d,
    cds = VRef r /\ _conditions st' = VRef r /\
    heap st' !! r = Some (ODict d) /\
    forall k v, In (k, v) d -> is_bool v = true.
Proof.
  intros HP Hnone. unfold conditions. rewrite Hnone.
  destruct (resolve_conditions' s st) as [[r|e] st1] eqn:Hr; [|discriminate].
  intros [= <- <-].
  apply (resolve_conditions_inv (fun v => is_bool v = true)) in Hr
    as (d & k & calls' & -> & Hd & Hres); [|exact HP].
  rewrite (Hres r eq_refl). cbn.
  exists (length (heap st)), d. repeat split.
  - apply lookup_middle.
  - intros k0 v Hin. destruct (Hd _ Hin) as [H|H]; exact H.
Qed.

(** C2: conditions(stack) is memoized.  The first call is the call of
    resolve_conditions(stack), whose result it stores; every later call, with
    whatever stack, returns that same object and leaves the whole state as it
    is: nothing is allocated and function.resolve is not called. *)
Theorem conditions_memoized s1 st cds st1 :
  _conditions st = VNone ->
  conditions stack get_condition_definitions parse_condition
    function_resolve s1 st = (Ok cds, st1) ->
  (exists st',
     resolve_conditions stack get_condition_definitions parse_condition
       function_resolve s1 st = (Ok cds, st') /\
     st1 = mkState (heap st') cds (resolve_calls st')) /\
  forall s2,
    conditions stack get_condition_definitions parse_condition
      function_resolve s2 st1 = (Ok cds, st1).
Proof.
  intros Hnone. unfold conditions at 1. rewrite Hnone.
  destruct (resolve_conditions' s1 st) as [[r|e] st'] eqn:Hr; [|discriminate].
  intros [= <- <-]. split; [now exists st'|].
  intros s2. apply resolve_conditions_ok in Hr as (d & k & calls' & -> & _).
  reflexivity.
Qed.

(** C3: when the conditions before [k] resolve and the evaluator raises on
    the definition of [k], resolve_conditions raises that same exception,
    conditions(stack) raises it too, and [_conditions] is still None: the
    values computed before the failure are not cached. *)
Theorem evaluator_failure_aborts_resolution s st pre k v post r st1 e st2 :
  get_condition_definitions = pre ++ (k, v) :: post ->
  _conditions st = VNone ->
  is_bool v = false ->
  resolve_conditions stack pre parse_condition function_resolve s st
    = (Ok r, st1) ->
  bind (call_parse_condition stack parse_condition s v)
    (call_function_resolve function_resolve) st1 = (Raise e, st2) ->
  resolve_conditions' s st = (Raise e, st2) /\
  conditions' s st = (Raise e, st2) /\
  _conditions st2 = VNone.
Proof.
  intros Hdefs Hnone Hb Hpre Hev.
  assert (Hres : resolve_conditions' s st = (Raise e, st2)).
  { unfold resolve_conditions in *. rewrite Hdefs.
    unfold bind at 1 in Hpre. unfold bind at 1.
    destruct (alloc (ODict []) st) as [[result|e0] st0]; [|discriminate].
    unfold bind at 1 in Hpre. unfold bind at 1.
    rewrite resolve_conditions_loop_app.
    destruct (resolve_conditions_loop' s result pre st0) as [[[]|e0] st1'];
      [|discriminate].
    injection Hpre as <- <-.
    cbn [resolve_conditions_loop]. rewrite Hb. cbn [negb].
    unfold bind at 1 2. unfold bind at 1 in Hev.
    destruct (call_parse_condition stack parse_condition s v st1')
      as [[cf|e1] st3].
    - unfold bind at 1. now rewrite Hev.
    - exact Hev. }
  split; [exact Hres|]. unfold conditions. rewrite Hnone, Hres.
  split; [reflexivity|].
  apply (resolve_conditions_inv (fun _ => True)) in Hres
    as (d & k' & calls' & -> & _); [|auto].
  exact Hnone.
Qed.

(** Once resolve_conditions has returned the mapping [d],
    validate_condition_definitions raises for the first item of [d] that is
    no boolean, and returns when there is none. *)
Lemma validate_condition_definitions_resolved s st r st1 d :
  resolve_conditions' s st = (Ok (VRef r), st1) ->
  heap st1 !! r = Some (ODict d) ->
  validate_condition_definitions stack get_condition_definitions
    parse_condition function_resolve s st =
    match find (fun kv => negb (is_bool (snd kv))) d with
    | Some (cd_key, cd_value) =>
        (Raise (InvalidConditionDefinition cd_key cd_value), st1)
    | None => (Ok tt, st1)
    end.
Proof.
  intros Hr Hd. unfold validate_condition_definitions, bind. rewrite Hr.
  cbn. rewrite Hd. destruct d as [|kv d']; [reflexivity|].
  generalize (kv :: d'). clear. intros d.
  induction d as [|[k v] d IH]; cbn; [reflexivity|].
  destruct (is_bool v); cbn; [exact IH|reflexivity].
Qed.

(** The evaluator returns for every definition of [items] that is no
    boolean literal, whatever the store it is called in. *)
Definition evaluates (s : stack) (items : list (string * value)) : Prop :=
  forall key v h,
    In (key, v) items -> is_bool v = false ->
    exists cf new1 r new2,
      parse_condition s v h = (Ok cf, new1) /\
      function_resolve cf (h ++ new1) = (Ok r, new2).

(** [r] is what the definition [cd_value] resolves to: [cd_value] itself
    when it is a boolean literal, otherwise a value function.resolve
    returned for what parse_condition made of [cd_value]. *)
Definition resolved_from (s : stack) (cd_value r : value) : Prop :=
  if is_bool cd_value then r = cd_value
  else
    exists h cf new1 new2,
      parse_condition s cd_value h = (Ok cf, new1) /\
      function_resolve cf (h ++ new1) = (Ok r, new2).

(** When the evaluator returns for each definition, the loop of
    resolve_conditions returns, and [result] then holds under each key what
    its definition resolved to. *)
Lemma resolve_conditions_loop_total s items :
  forall h0 d k cond calls,
    NoDup (map fst d ++ map fst items) ->
    evaluates s items ->
    exists d' k' calls',
      resolve_conditions_loop' s (VRef (length h0)) items
        (mkState (h0 ++ ODict d :: k) cond calls)
      = (Ok tt, mkState (h0 ++ ODict d' :: k') cond calls') /\
      map fst d' = map fst d ++ map fst items /\
      (forall key v, dict_get key d = Some v -> dict_get key d' = Some v) /\
      (forall key v, In (key, v) items ->
         exists r, dict_get key d' = Some r /\ resolved_from s v r).
Proof.
  induction items as [|[cd_key cd_value] rest IH];
    intros h0 d k cond calls Hnd Hev.
  - exists d, k, calls. cbn. rewrite app_nil_r.
    split; [reflexivity|]. split; [reflexivity|]. split; [auto|].
    intros key v [].
  - assert (Hfresh : dict_get cd_key d = None).
    { apply dict_get_None_keys. intros Hin.
      apply NoDup_app in Hnd as (_ & Hdisj & _).
      apply (Hdisj cd_key); [now apply list_elem_of_In|]. cbn. left. }
    assert (Hev' : evaluates s rest).
    { intros key v h Hin Hb. apply (Hev key v h); [now right|exact Hb]. }
    assert (Hstep : forall x k1 calls1,
      resolved_from s cd_value x ->
      exists d' k' calls',
        resolve_conditions_loop' s (VRef (length h0)) rest
          (mkState (h0 ++ ODict (dict_set cd_key x d) :: k1) cond calls1)
        = (Ok tt, mkState (h0 ++ ODict d' :: k') cond calls') /\
        map fst d' = map fst d ++ map fst ((cd_key, cd_value) :: rest) /\
        (forall key v, dict_get key d = Some v -> dict_get key d' = Some v) /\
        (forall key v, In (key, v) ((cd_key, cd_value) :: rest) ->
           exists r, dict_get key d' = Some r /\ resolved_from s v r)).
    { intros x k1 calls1 Hx.
      destruct (IH h0 (dict_set cd_key x d) k1 cond calls1)
        as (d' & k' & calls' & Hrun & Hkeys & Hold & Hres); [|exact Hev'|].
      { rewrite (dict_set_fresh _ _ _ Hfresh), map_app. cbn.
        now rewrite <- app_assoc. }
      exists d', k', calls'. split; [exact Hrun|].
      rewrite (dict_set_fresh _ _ _ Hfresh), map_app in Hkeys. cbn in Hkeys.
      rewrite <- app_assoc in Hkeys. split; [exact Hkeys|].
      split.
      - intros key v Hv. apply Hold. rewrite dict_get_set_ne; [exact Hv|].
        intros <-. congruence.
      - intros key v [[= <- <-]|Hin]; [|now apply Hres].
        exists x. split; [|exact Hx]. apply Hold. apply dict_get_set_eq. }
    cbn [resolve_conditions_loop].
    destruct (is_bool cd_value) eqn:Hb; cbn [negb].
    + unfold bind at 1. rewrite setitem_middle.
      apply Hstep. unfold resolved_from. now rewrite Hb.
    + destruct (Hev cd_key cd_value (h0 ++ ODict d :: k)
                  (or_introl eq_refl) Hb) as (cf & new1 & r & new2 & Hp & Hf).
      unfold bind at 1. unfold bind at 1.
      unfold call_parse_condition at 1. cbn [heap set_heap]. rewrite Hp.
      unfold bind at 1. unfold call_function_resolve at 1.
      cbn [heap set_heap _conditions resolve_calls]. rewrite Hf.
      replace (((h0 ++ ODict d :: k) ++ new1) ++ new2)
        with (h0 ++ ODict d :: (k ++ new1 ++ new2))
        by (now rewrite <- !app_assoc).
      rewrite setitem_middle.
      apply Hstep. unfold resolved_from. rewrite Hb.
      exists (h0 ++ ODict d :: k), cf, new1, new2. split; assumption.
Qed.

(** C4: validate_condition_definitions raises InvalidConditionDefinition
    with the name and the value of the first resolved condition (in the
    mapping's order) that is not a boolean, and returns when there is none.
    And resolve_conditions alone does not raise for a value that is not a
    boolean: when the evaluator returns for every definition,
    resolve_conditions returns a mapping that has the keys of the
    definitions and holds, under each, what the definition resolved to (the
    literal, or the evaluator's result, boolean or not). *)
Theorem validate_condition_definitions_spec s st :
  (forall r st1 d,
     resolve_conditions' s st = (Ok (VRef r), st1) ->
     heap st1 !! r = Some (ODict d) ->
     validate_condition_definitions stack get_condition_definitions
       parse_condition function_resolve s st =
       match find (fun kv => negb (is_bool (snd kv))) d with
       | Some (cd_key, cd_value) =>
           (Raise (InvalidConditionDefinition cd_key cd_value), st1)
       | None => (Ok tt, st1)
       end) /\
  (NoDup (map fst get_condition_definitions) ->
   evaluates s get_condition_definitions ->
   exists d st1,
     resolve_conditions' s st = (Ok (VRef (length (heap st))), st1) /\
     heap st1 !! length (heap st) = Some (ODict d) /\
     map fst d = map fst get_condition_definitions /\
     (forall key v, In (key, v) get_condition_definitions ->
        exists r, dict_get key d = Some r /\ resolved_from s v r) /\
     validate_condition_definitions stack get_condition_definitions
       parse_condition function_resolve s st =
       match find (fun kv => negb (is_bool (snd kv))) d with
       | Some (cd_key, cd_value) =>
           (Raise (InvalidConditionDefinition cd_key cd_value), st1)
       | None => (Ok tt, st1)
       end).
Proof.
  split; [apply validate_condition_definitions_resolved|].
  intros Hnd Hev.
  destruct (resolve_conditions_loop_total s get_condition_definitions
              (heap st) [] [] (_conditions st) (resolve_calls st) Hnd Hev)
    as (d & k & calls' & Hrun & Hkeys & _ & Hres).
  assert (Hr : resolve_conditions' s st
               = (Ok (VRef (length (heap st))),
                  mkState (heap st ++ ODict d :: k) (_conditions st) calls')).
  { unfold resolve_conditions. unfold bind at 1, alloc at 1.
    unfold bind at 1. unfold set_heap.
    cbn [heap _conditions resolve_calls]. now rewrite Hrun. }
  assert (Hd : heap (mkState (heap st ++ ODict d :: k) (_conditions st)
                       calls') !! length (heap st) = Some (ODict d))
    by apply lookup_middle.
  exists d, (mkState (heap st ++ ODict d :: k) (_conditions st) calls').
  split; [exact Hr|]. split; [exact Hd|]. split; [exact Hkeys|].
  split; [exact Hres|].
  exact (validate_condition_definitions_resolved s st _ _ d Hr Hd).
Qed.

(** C9: get_condition returns True, changing nothing, for a snippet without
    a condition section; for a snippet with one, whose condition is a key of
    the resolved mapping, it returns the value the mapping has for it. *)
Theorem get_condition_spec snippet s path st :
  (has_condition_section (view_of (heap st) snippet) = false ->
   get_condition' snippet s path st = (Ok (VBool true), st)) /\
  (forall a d name r st' dc cd,
     has_condition_section (view_of (heap st) snippet) = true ->
     snippet = VRef a -> heap st !! a = Some (ODict d) ->
     dict_get CONDITION d = Some (VStr name) ->
     conditions' s st = (Ok (VRef r), st') ->
     heap st' !! r = Some (ODict dc) ->
     dict_get name dc = Some cd ->
     get_condition' snippet s path st = (Ok cd, st')).
Proof.
  split.
  - intros H. unfold get_condition. now rewrite H.
  - intros a d name r st' dc cd H -> Ha Hname Hc Hr Hcd.
    unfold get_condition. rewrite H.
    unfold bind at 1. unfold getitem at 1. cbn. rewrite Ha, Hname.
    unfold bind at 1. rewrite Hc.
    unfold bind, contains, getitem, ret. cbn. rewrite Hr.
    unfold dict_mem. rewrite Hcd. cbn. now rewrite Hr, Hcd.
Qed.

(** C8: a snippet with a condition section that names a condition absent
    from the resolved mapping: get_condition raises
    InvalidConditionReference with that name and the path it was given,
    which is RESOURCES.<res_name>.RES_CONDITION from get_res_condition and
    OUTPUTS.<o_key>.OUTPUT_CONDITION from get_output_condition. *)
Theorem undefined_condition_reference a d name s st r st' dc :
  has_condition_section (view_of (heap st) (VRef a)) = true ->
  heap st !! a = Some (ODict d) ->
  dict_get CONDITION d = Some (VStr name) ->
  conditions' s st = (Ok (VRef r), st') ->
  heap st' !! r = Some (ODict dc) ->
  dict_get name dc = None ->
  (forall path,
     get_condition' (VRef a) s path st
     = (Raise (InvalidConditionReference (VStr name) path), st')) /\
  (forall res_name,
     get_res_condition stack CONDITION RESOURCES RES_CONDITION
       get_condition_definitions has_condition_section parse_condition
       function_resolve s (VRef a) res_name st
     = (Raise (InvalidConditionReference (VStr name)
                 (RESOURCES ++ "." ++ res_name ++ "." ++ RES_CONDITION)
                 %string), st')) /\
  (forall o_key,
     get_output_condition stack CONDITION OUTPUTS OUTPUT_CONDITION
       get_condition_definitions has_condition_section parse_condition
       function_resolve s (VRef a) o_key st
     = (Raise (InvalidConditionReference (VStr name)
                 (OUTPUTS ++ "." ++ o_key ++ "." ++ OUTPUT_CONDITION)
                 %string), st')).
Proof.
  intros H Ha Hname Hc Hr Hcd.
  assert (Hg : forall path,
    get_condition' (VRef a) s path st
    = (Raise (InvalidConditionReference (VStr name) path), st')).
  { intros path. unfold get_condition. rewrite H.
    unfold bind at 1. unfold getitem at 1. cbn. rewrite Ha, Hname.
    unfold bind at 1. rewrite Hc.
    unfold bind, contains, raise. cbn. rewrite Hr.
    unfold dict_mem. now rewrite Hcd. }
  split; [exact Hg|]. split.
  - intros res_name. unfold get_res_condition. rewrite H. apply Hg.
  - intros o_key. unfold get_output_condition. apply Hg.
Qed.

(** *** What one call does to the store and to the cache *)

Lemma getitem_inv obj key st out st' :
  getitem obj key st = (out, st') ->
  st' = st /\
  forall v, out = Ok v ->
    exists a d k,
      obj = VRef a /\ heap st !! a = Some (ODict d) /\ key = VStr k /\
      dict_get k d = Some v.
Proof.
  unfold getitem, view_of.
  destruct obj as [| | | |a]; try (intros [= <- <-]; split; [auto|discriminate]).
  destruct (heap st !! a) as [[d|l|n x]|] eqn:Ha;
    try (intros [= <- <-]; split; [auto|discriminate]).
  destruct key as [| | |k|]; try (intros [= <- <-]; split; [auto|discriminate]).
  destruct (dict_get k d) as [v|] eqn:Hk; intros [= <- <-];
    (split; [reflexivity|]); [|discriminate].
  intros v' [= <-]. now exists a, d, k.
Qed.

Lemma contains_state container key st out st' :
  contains container key st = (out, st') -> st' = st.
Proof.
  unfold contains.
  destruct (view_of (heap st) container) as [[]|[]]; destruct key;
    now intros [= <- <-].
Qed.

(** How a call changes the cache, given the objects [new] it appended:
    not at all, or from None to the mapping it has just built (or to None
    again, when the evaluator raised). *)
Definition cache_step (Q : value -> Prop) (st : state) (new : list object)
    (c' : value) : Prop :=
  (new = [] /\ c' = _conditions st) \/
  (_conditions st = VNone /\
   exists d k,
     new = ODict d :: k /\
     (c' = VNone \/ c' = VRef (length (heap st))) /\
     forall kv, In kv d -> Q (snd kv)).

Lemma conditions_cases (P : value -> Prop) s st out st' :
  (forall cf h r new, function_resolve cf h = (Ok r, new) -> P r) ->
  conditions' s st = (out, st') ->
  exists new,
    heap st' = heap st ++ new /\
    cache_step (fun v => is_bool v = true \/ P v) st new (_conditions st') /\
    forall cds, out = Ok cds -> cds = _conditions st' /\ cds <> VNone.
Proof.
  intros HP. unfold conditions.
  destruct (_conditions st) eqn:Hc;
    try (intros [= <- <-]; exists []; rewrite app_nil_r, Hc;
         split; [reflexivity|]; split; [now left|];
         intros cds [= <-]; split; [reflexivity|discriminate]).
  destruct (resolve_conditions' s st) as [[r|e] st1] eqn:Hr;
    apply (resolve_conditions_inv P) in Hr
      as (d & k & calls' & -> & Hd & Hres); try exact HP;
    intros [= <- <-]; exists (ODict d :: k); cbn;
    (split; [reflexivity|]).
  - rewrite (Hres r eq_refl). split.
    + right. split; [exact Hc|]. exists d, k. auto.
    + intros cds [= <-]. split; [reflexivity|discriminate].
  - split; [|discriminate]. right. split; [exact Hc|]. exists d, k.
    rewrite Hc. auto.
Qed.

Lemma get_condition_cases (P : value -> Prop) snippet s path st out st' :
  (forall cf h r new, function_resolve cf h = (Ok r, new) -> P r) ->
  has_condition_section (view_of (heap st) snippet) = true ->
  get_condition' snippet s path st = (out, st') ->
  exists new,
    heap st' = heap st ++ new /\
    cache_step (fun v => is_bool v = true \/ P v) st new (_conditions st') /\
    forall cd, out = Ok cd ->
      exists a ds name r dc,
        snippet = VRef a /\ heap st !! a = Some (ODict ds) /\
        dict_get CONDITION ds = Some (VStr name) /\
        _conditions st' = VRef r /\ heap st' !! r = Some (ODict dc) /\
        dict_get name dc = Some cd.
Proof.
  intros HP Hhas. unfold get_condition. rewrite Hhas. unfold bind at 1.
  destruct (getitem snippet (VStr CONDITION) st) as [[cd_key|e] st0] eqn:Hg;
    apply getitem_inv in Hg as [-> Hg].
  2:{ intros [= <- <-]. exists []. rewrite app_nil_r.
      split; [reflexivity|]. split; [now left|discriminate]. }
  destruct (Hg cd_key eq_refl) as (a & ds & k0 & -> & Ha & [= <-] & Hkey).
  unfold bind at 1.
  destruct (conditions' s st) as [[cds|e] st1] eqn:Hc;
    apply (conditions_cases P) in Hc as (new & Hheap & Hstep & Hcds);
    try exact HP.
  2:{ intros [= <- <-]. exists new. split; [exact Hheap|].
      split; [exact Hstep|discriminate]. }
  destruct (Hcds cds eq_refl) as [-> _]. unfold bind at 1.
  destruct (contains (_conditions st1) cd_key st1) as [[present|e] st2]
    eqn:Hin; pose proof (contains_state _ _ _ _ _ Hin) as ->.
  2:{ intros [= <- <-]. exists new. split; [exact Hheap|].
      split; [exact Hstep|discriminate]. }
  destruct present; cbn [negb].
  2:{ intros [= <- <-]. exists new. split; [exact Hheap|].
      split; [exact Hstep|discriminate]. }
  unfold bind.
  destruct (getitem (_conditions st1) cd_key st1) as [[cd|e] st2] eqn:Hg2;
    apply getitem_inv in Hg2 as [-> Hg2]; intros [= <- <-];
    exists new; (split; [exact Hheap|]); (split; [exact Hstep|]);
    [|discriminate].
  intros cd' [= <-].
  destruct (Hg2 cd eq_refl) as (r & dc & name & Hr & Hdc & -> & Hname).
  exists a, ds, name, r, dc. auto 10.
Qed.

Local Abbreviation apply_output_condition' :=
  (apply_output_condition stack CONDITION OUTPUTS OUTPUT_CONDITION
     OUTPUT_VALUE get_condition_definitions has_condition_section
     parse_condition function_resolve).
Local Abbreviation iter_outputs' :=
  (iter_outputs stack CONDITION OUTPUTS OUTPUT_CONDITION
     OUTPUT_VALUE get_condition_definitions has_condition_section
     parse_condition function_resolve).
Local Abbreviation parse_outputs_conditions' :=
  (parse_outputs_conditions stack CONDITION OUTPUTS OUTPUT_CONDITION
     OUTPUT_VALUE get_condition_definitions has_condition_section
     parse_condition function_resolve).

(** The items of a snippet after its condition [cd], of truth value [t],
    is applied. *)
Definition applied (t : bool) (cd : value) (ds : list (string * value))
  : list (string * value) :=
  if t then dict_set OUTPUT_CONDITION cd ds
  else dict_set OUTPUT_VALUE VNone (dict_set OUTPUT_CONDITION cd ds).

Lemma setitem_dict a d key v st :
  heap st !! a = Some (ODict d) ->
  setitem (VRef a) key v st
  = (Ok tt, set_heap st (<[a := ODict (dict_set key v d)]> (heap st))).
Proof. intros H. unfold setitem. now rewrite H. Qed.

(** One turn of the loop: nothing for a snippet without a condition
    section; otherwise the condition is looked up, which may resolve the
    conditions and may raise, and then applied to the snippet. *)
Lemma apply_output_condition_cases (P : value -> Prop) s key v st out st' :
  (forall cf h r new, function_resolve cf h = (Ok r, new) -> P r) ->
  apply_output_condition' s key v st = (out, st') ->
  (has_condition_section (view_of (heap st) v) = false /\
   out = Ok tt /\ st' = st) \/
  (has_condition_section (view_of (heap st) v) = true /\
   exists new,
     cache_step (fun v => is_bool v = true \/ P v) st new (_conditions st') /\
     (((exists e, out = Raise e) /\ heap st' = heap st ++ new) \/
      (out = Ok tt /\
       exists a ds name r dc cd,
         v = VRef a /\ heap st !! a = Some (ODict ds) /\
         dict_get CONDITION ds = Some (VStr name) /\
         _conditions st' = VRef r /\
         (heap st ++ new) !! r = Some (ODict dc) /\
         dict_get name dc = Some cd /\
         heap st'
         = <[a := ODict
                   (applied
                      (truthy
                         (<[a := ODict (dict_set OUTPUT_CONDITION cd ds)]>
                            (heap st ++ new)) cd) cd ds)]>
             (heap st ++ new)))).
Proof.
  intros HP. unfold apply_output_condition.
  destruct (has_condition_section (view_of (heap st) v)) eqn:Hhas.
  2:{ intros [= <- <-]. now left. }
  intros Hout. right. split; [reflexivity|]. revert Hout.
  unfold bind at 1. unfold get_output_condition.
  match goal with |- context [get_condition' v s ?p st] =>
    destruct (get_condition' v s p st) as [[cd|e] st1] eqn:Hg;
    apply (get_condition_cases P) in Hg as (new & Hheap & Hstep & Hcd);
    try assumption
  end.
  2:{ intros [= <- <-]. exists new. split; [exact Hstep|]. left. eauto. }
  destruct (Hcd cd eq_refl) as (a & ds & name & r & dc & -> & Ha & Hname
                                  & Hr & Hdc & Hcdv).
  assert (Ha1 : heap st1 !! a = Some (ODict ds)).
  { rewrite Hheap. now apply lookup_app_l_Some. }
  unfold bind at 1. rewrite (setitem_dict a ds _ _ st1 Ha1).
  set (h2 := <[a := ODict (dict_set OUTPUT_CONDITION cd ds)]> (heap st1)).
  assert (Ha2 : h2 !! a = Some (ODict (dict_set OUTPUT_CONDITION cd ds))).
  { apply list_lookup_insert_eq. now apply lookup_lt_Some in Ha1. }
  intros Hout. exists new.
  assert (out = Ok tt /\ _conditions st' = VRef r /\
          heap st' = <[a := ODict (applied (truthy h2 cd) cd ds)]> (heap st1))
    as (-> & Hc' & Hh').
  { unfold applied. cbn [heap set_heap] in Hout.
    destruct (truthy h2 cd); cbn [negb] in Hout.
    - injection Hout as <- <-. cbn. auto.
    - rewrite (setitem_dict a _ _ _ (set_heap st1 h2) Ha2) in Hout.
      injection Hout as <- <-. cbn. split; [reflexivity|].
      split; [exact Hr|]. unfold h2. apply list_insert_insert_eq. }
  split; [now rewrite Hc', <- Hr|]. right. split; [reflexivity|].
  exists a, ds, name, r, dc, cd. rewrite <- Hheap. fold h2. auto 10.
Qed.

(** *** The loop over the copy *)

(** A property of the state that every turn keeps holds when the loop
    is left, however it is left. *)
Lemma iter_outputs_preserves (J : state -> Prop) s c used :
  (forall st d i key v out st',
     J st -> heap st !! c = Some (ODict d) -> d !! i = Some (key, v) ->
     apply_output_condition' s key v st = (out, st') -> J st') ->
  forall fuel i st out st',
    J st -> iter_outputs' s c used i fuel st = (out, st') -> J st'.
Proof.
  intros Hstep fuel.
  induction fuel as [|fuel IH]; intros i st out st' HJ; cbn [iter_outputs];
    destruct (heap st !! c) as [[d|l|n x]|] eqn:Hc;
    try (now intros [= <- <-]);
    destruct (negb (Nat.eqb (length d) used));
    try (now intros [= <- <-]);
    destruct (d !! i) as [[key v]|] eqn:Hi; try (now intros [= <- <-]).
  unfold bind.
  destruct (apply_output_condition' s key v st) as [[[]|e] st1] eqn:Ha;
    pose proof (Hstep _ _ _ _ _ _ _ HJ Hc Hi Ha) as HJ1.
  - now apply IH.
  - now intros [= <- <-].
Qed.

(** When the loop returns, it has applied the condition of every item in
    turn: a property [I i] of the state before item [i], which each turn
    that returns carries to [I (S i)], holds for the number of items at the
    end. *)
Lemma iter_outputs_ok (I : nat -> state -> Prop) s c d1 :
  (forall i st, I i st -> heap st !! c = Some (ODict d1)) ->
  (forall i st key v st',
     I i st -> d1 !! i = Some (key, v) ->
     apply_output_condition' s key v st = (Ok tt, st') -> I (S i) st') ->
  forall fuel i st st',
    I i st -> length d1 <= i + fuel -> i <= length d1 ->
    iter_outputs' s c (length d1) i fuel st = (Ok tt, st') ->
    I (length d1) st'.
Proof.
  intros Hc Hstep fuel.
  induction fuel as [|fuel IH]; intros i st st' HI Hfuel Hi;
    cbn [iter_outputs]; rewrite (Hc _ _ HI), Nat.eqb_refl; cbn [negb].
  - assert (i = length d1) as -> by lia.
    destruct (d1 !! length d1) as [[key v]|]; now intros [= <-].
  - destruct (d1 !! i) as [[key v]|] eqn:Hd.
    + unfold bind.
      destruct (apply_output_condition' s key v st) as [[[]|e] st1] eqn:Ha;
        [|discriminate].
      apply IH; [eapply Hstep; eauto|lia|].
      apply lookup_lt_Some in Hd. lia.
    + intros [= <-]. apply lookup_ge_None in Hd.
      now assert (i = length d1) as -> by lia.
Qed.

(** *** The copy stays apart *)






Lemma deepcopy_region h x m h' :
  deepcopy x h = Some (rename m x, m, h') ->
  memo_ok h m h' ->
  (forall a y, memo_get a m = Some y -> complete h m h' a y) ->
  (forall b, x = VRef b -> memo_get b m <> None) ->
  region_closed (length h) (length h') h' /\
  in_region (length h) (length h') (rename m x).
Proof.
  intros _ (Hrange & _ & Hsurj) Hcomp Hcov. split.
  - intros y o v Hy Ho Hv. destruct (Hsurj y Hy) as [a Hay].
    destruct (Hcomp a y Hay) as (o' & _ & Ho' & Hc).
    rewrite Ho in Ho'. injection Ho' as ->.
    rewrite children_copy_of in Hv.
    apply in_map_iff in Hv as (w & <- & Hw).
    destruct w as [| | | |b]; try exact I. cbn.
    specialize (Hc b Hw). destruct (memo_get b m) as [yb|] eqn:Hb;
      [|congruence].
    cbn. now apply (Hrange b yb).
  - destruct x as [| | | |b]; try exact I. cbn.
    specialize (Hcov b eq_refl). destruct (memo_get b m) as [yb|] eqn:Hb;
      [|congruence].
    cbn. now apply (Hrange b yb).
Qed.








(** *** The conditions applied, item by item *)

Lemma refs_In vs a : In a (refs vs) <-> In (VRef a) vs.
Proof.
  unfold refs. rewrite in_flat_map. split.
  - intros (v & Hv & Ha). destruct v; try contradiction.
    destruct Ha as [->|[]]. exact Hv.
  - intros H. exists (VRef a). split; [exact H|now left].
Qed.

Lemma refs_lookup_inj (d : list (string * value)) i j k k' y :
  NoDup (refs (map snd d)) ->
  d !! i = Some (k, VRef y) -> d !! j = Some (k', VRef y) -> i = j.
Proof.
  revert i j. induction d as [|[k0 v0] d IH]; intros i j Hnd Hi Hj;
    [discriminate|].
  assert (Htail : NoDup (refs (map snd d))).
  { cbn in Hnd. apply NoDup_app in Hnd as (_ & _ & Hnd). exact Hnd. }
  assert (Hhead : forall n kk, d !! n = Some (kk, VRef y) -> v0 <> VRef y).
  { intros n kk Hn ->. cbn in Hnd. apply NoDup_cons in Hnd as [Hnot _].
    apply Hnot. apply list_elem_of_In, refs_In, in_map_iff.
    exists (kk, VRef y). split; [reflexivity|].
    apply list_elem_of_In, list_elem_of_lookup. eauto. }
  destruct i as [|i], j as [|j]; cbn in Hi, Hj.
  - reflexivity.
  - injection Hi as -> ->. now destruct (Hhead j k' Hj).
  - injection Hj as -> ->. now destruct (Hhead i k Hi).
  - f_equal. now apply IH.
Qed.

Lemma truthy_agree h h' v :
  (forall q, v = VRef q -> h !! q = h' !! q) -> truthy h v = truthy h' v.
Proof.
  destruct v as [| | | |q]; try reflexivity. cbn. intros H.
  now rewrite (H q eq_refl).
Qed.

Lemma dict_set_nonempty k v d : dict_set k v d <> [].
Proof.
  destruct d as [|[k' v'] d]; cbn; [discriminate|].
  destruct (String.eqb k k'); discriminate.
Qed.

Lemma dict_get_nonempty k d v : dict_get k d = Some v -> d <> [].
Proof. now destruct d. Qed.

(** Setting an item of a mapping that has items changes the truth value of
    no object. *)
Lemma truthy_insert_dict h a d d' v :
  h !! a = Some (ODict d) -> d <> [] -> d' <> [] ->
  truthy (<[a := ODict d']> h) v = truthy h v.
Proof.
  intros Ha Hd Hd'. destruct v as [| | | |q]; try reflexivity. cbn.
  destruct (Nat.eq_dec q a) as [->|Hne].
  - rewrite list_lookup_insert_eq by (now apply lookup_lt_Some in Ha).
    rewrite Ha. destruct d, d'; congruence.
  - now rewrite list_lookup_insert_ne by congruence.
Qed.

Section AppliedLoop.

(** The store before the call, the store once the copy is made, and the
    items of the copy of the outputs mapping, at [c]. *)
Variables (h0 k1 : list object) (c : addr) (d1 : list (string * value)).

Local Abbreviation h1 := (h0 ++ k1).

Hypothesis c_region : length h0 <= c < length h1.
Hypothesis c_items : h1 !! c = Some (ODict d1).
Hypothesis items_region :
  forall v, In v (map snd d1) -> in_region (length h0) (length h1) v.
Hypothesis items_apart : NoDup (c :: refs (map snd d1)).

(** The snippet at [y] is among the first [i] items and has a condition
    section. *)
Definition processed (i : nat) (y : addr) : Prop :=
  exists j key,
    j < i /\ d1 !! j = Some (key, VRef y) /\
    has_condition_section (view_of h1 (VRef y)) = true.

(** The condition of the snippet [v] of the copy has been applied: its
    items are those of the copy with the resolved value [cd] of the condition
    it names for condition, and None for value when [cd] is false. *)
Definition entry_applied (st : state) (v : value) : Prop :=
  exists a ds name r dc cd t,
    v = VRef a /\ h1 !! a = Some (ODict ds) /\
    dict_get CONDITION ds = Some (VStr name) /\
    _conditions st = VRef r /\ heap st !! r = Some (ODict dc) /\
    dict_get name dc = Some cd /\
    heap st !! a = Some (ODict (applied t cd ds)) /\
    (value_closed (length h0) cd = true -> t = truthy h0 cd) /\
    t = truthy (heap st) cd.

Definition loop_inv (i : nat) (st : state) : Prop :=
  length h1 <= length (heap st) /\
  (forall y, y < length h1 -> ~ processed i y -> heap st !! y = h1 !! y) /\
  (forall r, _conditions st = VRef r -> r < length h0 \/ length h1 <= r) /\
  (forall j key v,
     j < i -> d1 !! j = Some (key, v) ->
     has_condition_section (view_of h1 v) = true -> entry_applied st v).

Lemma item_region i key v :
  d1 !! i = Some (key, v) -> in_region (length h0) (length h1) v.
Proof.
  intros Hi. apply items_region, in_map_iff. exists (key, v).
  split; [reflexivity|]. apply list_elem_of_In, list_elem_of_lookup. eauto.
Qed.

Lemma items_nodup : NoDup (refs (map snd d1)).
Proof. now apply NoDup_cons in items_apart as [_ H]. Qed.

Lemma item_not_outputs i key y : d1 !! i = Some (key, VRef y) -> y <> c.
Proof.
  intros Hi ->. apply NoDup_cons in items_apart as [Hnot _]. apply Hnot.
  apply list_elem_of_In, refs_In, in_map_iff. exists (key, VRef c).
  split; [reflexivity|]. apply list_elem_of_In, list_elem_of_lookup. eauto.
Qed.

Lemma processed_region i y :
  processed i y -> length h0 <= y < length h1 /\ y <> c.
Proof.
  intros (j & key & _ & Hj & _). split.
  - exact (item_region _ _ _ Hj).
  - exact (item_not_outputs _ _ _ Hj).
Qed.

Lemma processed_S i y : processed i y -> processed (S i) y.
Proof. intros (j & key & Hj & H). exists j, key. split; [lia|exact H]. Qed.

Lemma not_processed_item i key y :
  d1 !! i = Some (key, VRef y) -> ~ processed i y.
Proof.
  intros Hi (j & key' & Hj & Hj' & _).
  pose proof (refs_lookup_inj _ _ _ _ _ _ items_nodup Hi Hj'). lia.
Qed.

Lemma loop_inv_items i st : loop_inv i st -> heap st !! c = Some (ODict d1).
Proof.
  intros (_ & Hsame & _). rewrite Hsame; [exact c_items|lia|].
  intros Hp. now apply processed_region in Hp as [_ []].
Qed.

Lemma loop_inv_view i st key v :
  loop_inv i st -> d1 !! i = Some (key, v) ->
  view_of (heap st) v = view_of h1 v.
Proof.
  intros (_ & Hsame & _) Hi. destruct v as [| | | |y]; try reflexivity.
  cbn. rewrite Hsame; [reflexivity| |now apply (not_processed_item i key)].
  now apply (item_region i key (VRef y)).
Qed.

Lemma apply_output_condition_loop_inv s i st key v st' :
  loop_inv i st -> d1 !! i = Some (key, v) ->
  apply_output_condition' s key v st = (Ok tt, st') ->
  loop_inv (S i) st'.
Proof.
  intros HI Hi Ha.
  pose proof (loop_inv_view _ _ _ _ HI Hi) as Hview.
  destruct HI as (Hlen & Hsame & Hcache & Hdone).
  destruct (apply_output_condition_cases (fun _ => True) s key v st _ st'
              (fun _ _ _ _ _ => I) Ha)
    as [(Hhas & _ & ->)|(Hhas & new & Hstep & Hcase)].
  { (* no condition section *)
    rewrite Hview in Hhas. split; [exact Hlen|]. split; [|split].
    - intros y Hy Hnp. apply Hsame; [exact Hy|].
      intros Hp. apply Hnp. now apply processed_S.
    - exact Hcache.
    - intros j key' v' Hj Hj' Hhas'.
      destruct (Nat.eq_dec j i) as [->|Hne].
      + rewrite Hi in Hj'. injection Hj' as <- <-. congruence.
      + apply (Hdone j key' v'); [lia|exact Hj'|exact Hhas']. }
  rewrite Hview in Hhas.
  destruct Hcase as [[[e He] _]|(_ & a & ds & name & r & dc & cd & -> & Hads
                                   & Hname & Hr & Hdc & Hcd & Hheap)];
    [discriminate|].
  pose proof (item_region _ _ _ Hi) as Hreg. cbn in Hreg.
  pose proof (not_processed_item _ _ _ Hi) as Hnp.
  assert (Hads1 : h1 !! a = Some (ODict ds)).
  { rewrite <- Hsame; [exact Hads|lia|exact Hnp]. }
  assert (Hrout : r < length h0 \/ length h1 <= r).
  { destruct Hstep as [[_ Hc]|(_ & d & k & _ & Hc & _)].
    - apply Hcache. now rewrite <- Hc.
    - rewrite Hr in Hc. destruct Hc as [Hc|[= ->]]; [discriminate|].
      right. lia. }
  assert (Hlena : a < length (heap st ++ new)).
  { rewrite (length_app (heap st)). lia. }
  split; [rewrite Hheap, length_insert, (length_app (heap st)); lia|].
  split; [|split].
  - intros y Hy Hnpy.
    assert (y <> a).
    { intros ->. apply Hnpy. exists i, key. auto. }
    rewrite Hheap, list_lookup_insert_ne by congruence.
    rewrite lookup_app_l by lia. apply Hsame; [exact Hy|].
    intros Hp. apply Hnpy. now apply processed_S.
  - intros r' Hr'. rewrite Hr in Hr'. now injection Hr' as <-.
  - intros j key' v' Hj Hj' Hhas'.
    destruct (Nat.eq_dec j i) as [->|Hne].
    + rewrite Hi in Hj'. injection Hj' as <- <-.
      eexists a, ds, name, r, dc, cd, _.
      split; [reflexivity|]. split; [exact Hads1|]. split; [exact Hname|].
      split; [exact Hr|]. split; [|split; [exact Hcd|split; [|split]]].
      * rewrite Hheap, list_lookup_insert_ne by lia. exact Hdc.
      * rewrite Hheap. now apply list_lookup_insert_eq.
      * intros Hclosed. apply truthy_agree. intros q ->.
        cbn in Hclosed. apply Nat.ltb_lt in Hclosed.
        rewrite list_lookup_insert_ne by lia.
        rewrite lookup_app_l by lia.
        rewrite Hsame; [now apply lookup_app_l|rewrite length_app; lia|].
        intros Hp. apply processed_region in Hp. lia.
      * assert (Hnew : (heap st ++ new) !! a = Some (ODict ds))
          by now apply lookup_app_l_Some.
        pose proof (dict_get_nonempty _ _ _ Hname) as Hne.
        rewrite Hheap.
        set (t := truthy
                    (<[a := ODict (dict_set OUTPUT_CONDITION cd ds)]>
                       (heap st ++ new)) cd).
        rewrite (truthy_insert_dict (heap st ++ new) a ds (applied t cd ds)
                   cd Hnew Hne)
          by (unfold applied; destruct t; apply dict_set_nonempty).
        unfold t. apply (truthy_insert_dict _ a ds _ cd Hnew Hne).
        apply dict_set_nonempty.
    + destruct (Hdone j key' v') as (a' & ds' & name' & r' & dc' & cd' & t'
                                       & -> & Hads' & Hname' & Hr' & Hdc'
                                       & Hcd' & Hfin & Ht' & Hnow');
        [lia|exact Hj'|exact Hhas'|].
      assert (Hsamecache : new = [] /\ r = r').
      { destruct Hstep as [[Hn Hc]|(Hc & _)]; [|congruence].
        split; [exact Hn|]. rewrite Hr, Hr' in Hc. now injection Hc. }
      destruct Hsamecache as [-> <-]. rewrite app_nil_r in *.
      assert (a' <> a).
      { intros ->. apply Hne. eapply refs_lookup_inj; eauto using items_nodup. }
      exists a', ds', name', r, dc', cd', t'.
      split; [reflexivity|]. split; [exact Hads'|]. split; [exact Hname'|].
      split; [exact Hr|].
      split; [|split; [exact Hcd'|split; [|split; [exact Ht'|]]]].
      * rewrite Hheap, list_lookup_insert_ne by lia. exact Hdc'.
      * rewrite Hheap, list_lookup_insert_ne by congruence. exact Hfin.
      * rewrite Hheap, Hnow'.
        symmetry. apply (truthy_insert_dict _ a ds _ cd' Hads).
        -- exact (dict_get_nonempty _ _ _ Hname).
        -- unfold applied.
           match goal with |- (if ?b then _ else _) <> [] =>
             destruct b; apply dict_set_nonempty
           end.
Qed.

(** When the loop over the copy returns, the condition of every item with
    a condition section has been applied, and nothing else of the copy is
    changed. *)
Lemma for_outputs_applies s st st' :
  heap st = h1 ->
  (forall r, _conditions st = VRef r -> r < length h0) ->
  for_outputs stack CONDITION OUTPUTS OUTPUT_CONDITION OUTPUT_VALUE
    get_condition_definitions has_condition_section parse_condition
    function_resolve s (VRef c) st = (Ok tt, st') ->
  loop_inv (length d1) st'.
Proof.
  intros Hh Hcache. unfold for_outputs. cbn. rewrite Hh, c_items.
  apply (iter_outputs_ok loop_inv).
  - apply loop_inv_items.
  - intros i st0 key v st1. apply apply_output_condition_loop_inv.
  - split; [rewrite Hh; lia|]. split; [now rewrite Hh|]. split.
    + intros r Hr. left. now apply Hcache.
    + intros j key v Hj. lia.
  - lia.
  - lia.
Qed.

End AppliedLoop.

(** *** The copy of a mapping of distinct snippets *)

Definition memo_image (m : memo) (b : addr) : addr :=
  match memo_get b m with Some y => y | None => b end.

Lemma refs_rename m vs :
  covers m vs -> refs (map (rename m) vs) = map (memo_image m) (refs vs).
Proof.
  induction vs as [|v vs IH]; intros Hcov; [reflexivity|].
  assert (Hcov' : covers m vs) by (intros b Hb; apply Hcov; now right).
  cbn [map refs flat_map]. fold (refs (map (rename m) vs)). fold (refs vs).
  rewrite (IH Hcov'). destruct v as [| | | |b]; try reflexivity.
  specialize (Hcov b (or_introl eq_refl)).
  cbn. unfold memo_image.
  destruct (memo_get b m); [reflexivity|congruence].
Qed.

Lemma NoDup_memo_image m (l : list addr) :
  (forall a b y, memo_get a m = Some y -> memo_get b m = Some y -> a = b) ->
  (forall b, In b l -> memo_get b m <> None) ->
  NoDup l -> NoDup (map (memo_image m) l).
Proof.
  intros Hinj Hcov Hnd. apply NoDup_ListNoDup.
  apply NoDup_map_NoDup_ForallPairs; [|now apply NoDup_ListNoDup].
  intros a b Ha Hb. unfold memo_image.
  pose proof (Hcov a Ha). pose proof (Hcov b Hb).
  destruct (memo_get a m) as [ya|] eqn:Ea; [|congruence].
  destruct (memo_get b m) as [yb|] eqn:Eb; [|congruence].
  intros ->. eapply Hinj; eauto.
Qed.

Lemma dict_lookup_rename m (d : list (string * value)) j key v :
  d !! j = Some (key, v) ->
  map (fun kv => (fst kv, rename m (snd kv))) d !! j
  = Some (key, rename m v).
Proof.
  intros H. change (map ?f d) with (f <$> d).
  now rewrite list_lookup_fmap, H.
Qed.

(** What parse_outputs_conditions returns for a mapping of distinct
    snippets: the copy of the mapping, in which every snippet with a
    condition section has the resolved value [cd] of its condition as its
    condition and, when [cd] is false, None as its value; [t] is the truth
    value of [cd].  Every other object of the copy is as the deep copy made
    it. *)
Lemma parse_outputs_conditions_entries a0 d0 s st res st' :
  store_closed (heap st) = true ->
  value_closed (length (heap st)) (_conditions st) = true ->
  heap st !! a0 = Some (ODict d0) ->
  NoDup (a0 :: refs (map snd d0)) ->
  parse_outputs_conditions' (VRef a0) s st = Some (Ok res, st') ->
  exists m h1 c,
    deepcopy (VRef a0) (heap st) = Some (VRef c, m, h1) /\
    res = VRef c /\
    heap st' !! c
    = Some (ODict (map (fun kv => (fst kv, rename m (snd kv))) d0)) /\
    (forall key v, In (key, v) d0 ->
       (has_condition_section (view_of h1 (rename m v)) = false ->
        view_of (heap st') (rename m v) = view_of h1 (rename m v)) /\
       (has_condition_section (view_of h1 (rename m v)) = true ->
        exists a o a' ds name r dc cd t,
          v = VRef a /\ heap st !! a = Some o /\ rename m v = VRef a' /\
          copy_of m o = ODict ds /\ h1 !! a' = Some (ODict ds) /\
          dict_get CONDITION ds = Some (VStr name) /\
          _conditions st' = VRef r /\ heap st' !! r = Some (ODict dc) /\
          dict_get name dc = Some cd /\
          heap st' !! a' = Some (ODict (applied t cd ds)) /\
          (value_closed (length (heap st)) cd = true ->
           t = truthy (heap st) cd) /\
          t = truthy (heap st') cd)) /\
    (forall a y, memo_get a m = Some y ->
       (forall key, In (key, VRef a) d0 ->
          has_condition_section (view_of h1 (VRef y)) = false) ->
       exists o, heap st !! a = Some o /\ heap st' !! y = Some (copy_of m o)).
Proof.
  intros Hclosed Hcache Ha0 Hnd Hparse.
  assert (Hlt : value_closed (length (heap st)) (VRef a0) = true).
  { cbn. apply Nat.ltb_lt. now apply lookup_lt_Some in Ha0. }
  destruct (deepcopy_spec (heap st) (VRef a0) Hclosed Hlt)
    as (m & h1 & Hd & [k1 Hh1] & Hok & Hcomp & Hcov).
  destruct (deepcopy_region _ _ _ _ Hd Hok Hcomp Hcov) as [Hrc Hres].
  specialize (Hcov a0 eq_refl).
  destruct (memo_get a0 m) as [c|] eqn:Hc; [clear Hcov|congruence].
  assert (Hrn : rename m (VRef a0) = VRef c) by (cbn; now rewrite Hc).
  rewrite Hrn in Hd, Hres. cbn in Hres.
  destruct (Hcomp a0 c Hc) as (o0 & Ho0 & Hcopy & Hcov0).
  rewrite Ha0 in Ho0. injection Ho0 as <-.
  rewrite copy_of_dict in Hcopy. cbn [children] in Hcov0.
  set (d1 := map (fun kv => (fst kv, rename m (snd kv))) d0) in *.
  assert (Hvals : map snd d1 = map (rename m) (map snd d0)).
  { unfold d1. rewrite !map_map. reflexivity. }
  subst h1.
  assert (Hitems : forall v, In v (map snd d1) ->
            in_region (length (heap st)) (length (heap st ++ k1)) v).
  { intros v Hv. now apply (Hrc c (ODict d1) v). }
  assert (Hapart : NoDup (c :: refs (map snd d1))).
  { rewrite Hvals, (refs_rename m _ Hcov0).
    replace c with (memo_image m a0) by (unfold memo_image; now rewrite Hc).
    change (NoDup (map (memo_image m) (a0 :: refs (map snd d0)))).
    apply NoDup_memo_image; [apply Hok| |exact Hnd].
    intros b [<-|Hb]; [congruence|]. apply Hcov0. now apply refs_In. }
  unfold parse_outputs_conditions in Hparse. rewrite Hd in Hparse.
  unfold bind, ret in Hparse.
  match type of Hparse with context [for_outputs ?a ?b ?c ?d ?e ?f ?g ?h ?i ?j ?k ?l] =>
    destruct (for_outputs a b c d e f g h i j k l) as [[[]|e0] st2] eqn:Hfor
  end; [|discriminate].
  injection Hparse as <- <-.
  apply (for_outputs_applies (heap st) k1 c d1 Hres Hcopy Hitems Hapart)
    in Hfor; [|reflexivity|].
  2:{ intros r Hr. cbn in Hr. rewrite Hr in Hcache.
      now apply Nat.ltb_lt in Hcache. }
  pose proof (loop_inv_items (heap st) k1 c d1 Hres Hcopy Hitems Hapart
                _ _ Hfor) as Hcfinal.
  destruct Hfor as (_ & Hsame & _ & Hdone).
  exists m, (heap st ++ k1), c.
  split; [exact Hd|]. split; [reflexivity|]. split; [exact Hcfinal|].
  split.
  2:{ intros a y Hay Hnot.
      destruct (Hcomp a y Hay) as (o & Ho & Hcopya & _).
      exists o. split; [exact Ho|]. rewrite <- Hcopya.
      destruct Hok as (Hrange & Hinj & _).
      apply Hsame; [now apply (Hrange a y)|].
      intros (j & key & _ & Hj & Hhas).
      unfold d1 in Hj. change (map ?f d0) with (f <$> d0) in Hj.
      rewrite list_lookup_fmap in Hj.
      destruct (d0 !! j) as [[key' v]|] eqn:Hj0; [|discriminate].
      cbn in Hj. injection Hj as -> Hv.
      assert (Hin : In (key, v) d0).
      { apply list_elem_of_In, list_elem_of_lookup. eauto. }
      destruct v as [| | | |b]; try discriminate.
      assert (Hb : memo_get b m <> None).
      { apply Hcov0, in_map_iff. now exists (key, VRef b). }
      cbn in Hv. destruct (memo_get b m) as [y'|] eqn:Hby; [|congruence].
      injection Hv as ->.
      rewrite (Hinj a b y Hay Hby) in Hnot.
      rewrite (Hnot key Hin) in Hhas. discriminate. }
  intros key v Hin.
  apply list_elem_of_In, list_elem_of_lookup in Hin as [j Hj].
  pose proof (dict_lookup_rename m d0 j key v Hj) as Hj1. fold d1 in Hj1.
  split.
  - intros Hhas. destruct (rename m v) as [| | | |a'] eqn:Hv; try reflexivity.
    cbn. rewrite Hsame; [reflexivity| |].
    + apply (Hitems (VRef a')). apply in_map_iff. exists (key, VRef a').
      split; [reflexivity|].
      apply list_elem_of_In, list_elem_of_lookup. eauto.
    + intros (_ & _ & _ & _ & Hhas'). congruence.
  - intros Hhas.
    destruct (Hdone j key (rename m v)) as (a' & ds & name & r & dc & cd & t
        & Hv & Hads & Hname & Hr & Hdc & Hcd & Hfin & Ht & Hnow);
      [apply lookup_lt_Some in Hj1; exact Hj1|exact Hj1|exact Hhas|].
    assert (Hvin : In v (map snd d0)).
    { apply in_map_iff. exists (key, v). split; [reflexivity|].
      apply list_elem_of_In, list_elem_of_lookup. eauto. }
    destruct v as [| | | |a]; try discriminate.
    pose proof (Hcov0 a Hvin) as Hca.
    destruct (memo_get a m) as [y|] eqn:Hay; [|congruence].
    cbn in Hv. rewrite Hay in Hv. injection Hv as ->.
    destruct (Hcomp a a' Hay) as (o & Ho & Hcopya & _).
    rewrite Hads in Hcopya. injection Hcopya as Hcopya.
    exists a, o, a', ds, name, r, dc, cd, t.
    cbn. rewrite Hay. auto 15.
Qed.



End CommonTemplateFacts.

(** ** Facts about _validate_resource_definition *)

Lemma validate_resource_key_type_mapping
    key valid_types typename rsrc_name a d st :
  heap st !! a = Some (ODict d) ->
  validate_resource_key_type key valid_types typename rsrc_name (VRef a) st =
    match dict_get key d with
    | None => (Ok false, st)
    | Some v =>
        if isinstance (heap st) v valid_types then (Ok true, st)
        else (Raise (TypeError ("Resource " ++ rsrc_name ++ " " ++ key
                                  ++ " type must be " ++ typename)%string),
              st)
    end.
Proof.
  intros Hd. unfold validate_resource_key_type, bind, contains, getitem, ret.
  cbn. rewrite Hd. unfold dict_mem.
  destruct (dict_get key d) as [v|] eqn:Hk; cbn; [|reflexivity].
  rewrite Hd, Hk. now destruct (isinstance (heap st) v valid_types).
Qed.

Lemma validate_resource_key_type_state
    key valid_types typename rsrc_name rsrc_data st out st' :
  validate_resource_key_type key valid_types typename rsrc_name rsrc_data st
  = (out, st') ->
  st' = st.
Proof.
  unfold validate_resource_key_type, bind.
  destruct (contains rsrc_data (VStr key) st) as [[present|e] st0] eqn:Hc;
    apply contains_state in Hc as ->; [|now intros [= _ <-]].
  destruct present; [|now intros [= _ <-]].
  destruct (getitem rsrc_data (VStr key) st) as [[v|e] st0] eqn:Hg;
    apply getitem_inv in Hg as [-> _]; [|now intros [= _ <-]].
  destruct (negb (isinstance (heap st) v valid_types)); now intros [= _ <-].
Qed.

Lemma find_negb_None {A} (f : A -> bool) l :
  find (fun x => negb (f x)) l = None <-> forallb f l = true.
Proof.
  induction l as [|x l IH]; cbn; [tauto|].
  destruct (f x); cbn; [exact IH|]. split; discriminate.
Qed.

Lemma find_negb_first {A} (f : A -> bool) pre x post :
  forallb f pre = true -> f x = false ->
  find (fun y => negb (f y)) (pre ++ x :: post) = Some x.
Proof.
  intros Hpre Hx. induction pre as [|y pre IH]; cbn.
  - now rewrite Hx.
  - cbn in Hpre. apply andb_true_iff in Hpre as [Hy Hpre].
    rewrite Hy. cbn. now apply IH.
Qed.

Lemma find_agree {A} (f g : A -> bool) l :
  (forall x, In x l -> f x = g x) -> find f l = find g l.
Proof.
  induction l as [|x l IH]; intros H; cbn; [reflexivity|].
  rewrite <- (H x (or_introl eq_refl)). destruct (f x); [reflexivity|].
  apply IH. intros y Hy. apply H. now right.
Qed.

Lemma find_negb_In {A} (f : A -> bool) l x :
  In x l -> f x = false -> exists y, find (fun z => negb (f z)) l = Some y.
Proof.
  induction l as [|z l IH]; [intros []|]. cbn. intros [->|Hin] Hx.
  - rewrite Hx. cbn. eauto.
  - destruct (f z); cbn; eauto.
Qed.

Section ResourceDefinitionFacts.

Variables RES_TYPE RES_PROPERTIES RES_METADATA RES_DEPENDS_ON : string.
Variables RES_DELETION_POLICY RES_UPDATE_POLICY RES_DESCRIPTION : string.

Local Abbreviation validate_definition :=
  (_validate_resource_definition RES_TYPE RES_PROPERTIES RES_METADATA
     RES_DEPENDS_ON RES_DELETION_POLICY RES_UPDATE_POLICY RES_DESCRIPTION).
Local Abbreviation schema :=
  (resource_schema RES_TYPE RES_PROPERTIES RES_METADATA RES_DEPENDS_ON
     RES_DELETION_POLICY RES_UPDATE_POLICY RES_DESCRIPTION).

(** The checks of a list of keys, one after the other. *)
Fixpoint check_fields (name : string) (data : value)
    (entries : list (string * list pytype * string)) : M unit :=
  match entries with
  | [] => ret tt
  | e :: rest =>
      validate_resource_key_type (fst (fst e)) (snd (fst e)) (snd e) name
        data ;;;
      check_fields name data rest
  end.

Lemma check_fields_mapping name a d st entries :
  heap st !! a = Some (ODict d) ->
  check_fields name (VRef a) entries st =
    match find (fun e => negb (field_ok (heap st) d e)) entries with
    | Some e => (Raise (type_error name e), st)
    | None => (Ok tt, st)
    end.
Proof.
  intros Hd. induction entries as [|[[k ts] tn] rest IH]; [reflexivity|].
  cbn [check_fields find fst snd]. unfold bind.
  rewrite (validate_resource_key_type_mapping _ _ _ _ a d st Hd).
  unfold field_ok at 1. cbn [fst snd].
  destruct (dict_get k d) as [v|]; [|exact IH].
  destruct (isinstance (heap st) v ts); [exact IH|reflexivity].
Qed.

(** On a mapping, the method is a walk down the schema: the error of the
    first key that is present with a value of a wrong type, after the check
    that the type key is there. *)
Lemma validate_resource_definition_mapping name a d st :
  heap st !! a = Some (ODict d) ->
  validate_definition name (VRef a) st =
    match dict_get RES_TYPE d with
    | None => (Raise (missing_type_error RES_TYPE name), st)
    | Some _ =>
        match find (fun e => negb (field_ok (heap st) d e)) schema with
        | Some e => (Raise (type_error name e), st)
        | None => (Ok tt, st)
        end
    end.
Proof.
  intros Hd.
  change (validate_definition name (VRef a) st)
    with (bind (validate_resource_key_type RES_TYPE [T_str] "string" name
                  (VRef a))
            (fun present =>
               if negb present
               then raise (missing_type_error RES_TYPE name)
               else check_fields name (VRef a) (tl schema)) st).
  unfold bind. rewrite (validate_resource_key_type_mapping _ _ _ _ a d st Hd).
  unfold resource_schema. cbn [find tl]. unfold field_ok at 1. cbn [fst snd].
  destruct (dict_get RES_TYPE d) as [v|]; [|reflexivity].
  destruct (isinstance (heap st) v [T_str]); [|reflexivity].
  cbn [negb]. exact (check_fields_mapping name a d st _ Hd).
Qed.

Lemma check_fields_state name data entries st out st' :
  check_fields name data entries st = (out, st') -> st' = st.
Proof.
  revert st out st'.
  induction entries as [|e rest IH]; intros st out st'; cbn.
  - now intros [= _ <-].
  - unfold bind.
    destruct (validate_resource_key_type _ _ _ name data st)
      as [[present|err] st0] eqn:Hv;
      apply validate_resource_key_type_state in Hv as ->.
    + apply IH.
    + now intros [= _ <-].
Qed.

(** X1: a resource definition without the type key is refused with a
    KeyError that names the resource and the key, whatever its other
    fields hold. *)
Theorem resource_definition_missing_type name a d st :
  heap st !! a = Some (ODict d) ->
  dict_get RES_TYPE d = None ->
  _validate_resource_definition RES_TYPE RES_PROPERTIES RES_METADATA
    RES_DEPENDS_ON RES_DELETION_POLICY RES_UPDATE_POLICY RES_DESCRIPTION
    name (VRef a) st
  = (Raise (KeyError (VStr ("Resource " ++ name ++ " is missing "
                              ++ double_quote ++ RES_TYPE ++ double_quote)
                        %string)),
     st).
Proof.
  intros Hd Ht. rewrite (validate_resource_definition_mapping name a d st Hd).
  now rewrite Ht.
Qed.

(** X2: a mapping is accepted exactly when it has the type key and every
    key of the schema that is present holds a value of one of its valid
    types; keys outside the schema play no part. *)
Theorem resource_definition_accepted_iff name a d st :
  heap st !! a = Some (ODict d) ->
  _validate_resource_definition RES_TYPE RES_PROPERTIES RES_METADATA
    RES_DEPENDS_ON RES_DELETION_POLICY RES_UPDATE_POLICY RES_DESCRIPTION
    name (VRef a) st = (Ok tt, st)
  <->
  dict_get RES_TYPE d <> None /\
  forallb (field_ok (heap st) d)
    (resource_schema RES_TYPE RES_PROPERTIES RES_METADATA RES_DEPENDS_ON
       RES_DELETION_POLICY RES_UPDATE_POLICY RES_DESCRIPTION) = true.
Proof.
  intros Hd. rewrite (validate_resource_definition_mapping name a d st Hd).
  rewrite <- find_negb_None.
  destruct (dict_get RES_TYPE d) as [v|].
  - destruct (find _ schema) as [e|]; split.
    + discriminate.
    + intros [_ H]. discriminate H.
    + intros _. split; [discriminate|reflexivity].
    + reflexivity.
  - split; [discriminate|]. now intros [H _].
Qed.

(** X3: the checks stop at the first key, in the order type, properties,
    metadata, depends_on, deletion_policy, update_policy, description, that
    holds a value of a wrong type: the TypeError names that key and the type
    expected of it, whatever the keys after it hold. *)
Theorem resource_definition_first_error name a d st pre e post :
  heap st !! a = Some (ODict d) ->
  dict_get RES_TYPE d <> None ->
  resource_schema RES_TYPE RES_PROPERTIES RES_METADATA RES_DEPENDS_ON
    RES_DELETION_POLICY RES_UPDATE_POLICY RES_DESCRIPTION
  = pre ++ e :: post ->
  forallb (field_ok (heap st) d) pre = true ->
  field_ok (heap st) d e = false ->
  _validate_resource_definition RES_TYPE RES_PROPERTIES RES_METADATA
    RES_DEPENDS_ON RES_DELETION_POLICY RES_UPDATE_POLICY RES_DESCRIPTION
    name (VRef a) st
  = (Raise (TypeError ("Resource " ++ name ++ " " ++ fst (fst e)
                         ++ " type must be " ++ snd e)%string),
     st).
Proof.
  intros Hd Ht Hschema Hpre He.
  rewrite (validate_resource_definition_mapping name a d st Hd).
  destruct (dict_get RES_TYPE d) as [v|]; [|congruence].
  rewrite Hschema, (find_negb_first _ pre e post Hpre He). reflexivity.
Qed.

(** X4: only the keys of the schema are looked at: two mappings that agree
    on them are treated alike. *)
Theorem resource_definition_ignores_other_keys name a d a' d' st :
  heap st !! a = Some (ODict d) ->
  heap st !! a' = Some (ODict d') ->
  (forall e,
     In e (resource_schema RES_TYPE RES_PROPERTIES RES_METADATA
             RES_DEPENDS_ON RES_DELETION_POLICY RES_UPDATE_POLICY
             RES_DESCRIPTION) ->
     dict_get (fst (fst e)) d = dict_get (fst (fst e)) d') ->
  _validate_resource_definition RES_TYPE RES_PROPERTIES RES_METADATA
    RES_DEPENDS_ON RES_DELETION_POLICY RES_UPDATE_POLICY RES_DESCRIPTION
    name (VRef a) st
  = _validate_resource_definition RES_TYPE RES_PROPERTIES RES_METADATA
      RES_DEPENDS_ON RES_DELETION_POLICY RES_UPDATE_POLICY RES_DESCRIPTION
      name (VRef a') st.
Proof.
  intros Hd Hd' Hagree.
  rewrite (validate_resource_definition_mapping name a d st Hd),
    (validate_resource_definition_mapping name a' d' st Hd').
  pose proof (Hagree (RES_TYPE, [T_str], "string") (or_introl eq_refl))
    as Ht.
  cbn in Ht. rewrite <- Ht.
  rewrite (find_agree (fun e => negb (field_ok (heap st) d e))
             (fun e => negb (field_ok (heap st) d' e)) schema);
    [reflexivity|].
  intros e He. unfold field_ok. now rewrite (Hagree e He).
Qed.

(** X5: a key of the schema that is present with the value None is not
    taken as absent: the definition is refused. *)
Theorem resource_definition_rejects_none name a d st e :
  heap st !! a = Some (ODict d) ->
  In e (resource_schema RES_TYPE RES_PROPERTIES RES_METADATA RES_DEPENDS_ON
          RES_DELETION_POLICY RES_UPDATE_POLICY RES_DESCRIPTION) ->
  dict_get (fst (fst e)) d = Some VNone ->
  exists err,
    _validate_resource_definition RES_TYPE RES_PROPERTIES RES_METADATA
      RES_DEPENDS_ON RES_DELETION_POLICY RES_UPDATE_POLICY RES_DESCRIPTION
      name (VRef a) st = (Raise err, st).
Proof.
  intros Hd He Hnone.
  rewrite (validate_resource_definition_mapping name a d st Hd).
  destruct (dict_get RES_TYPE d) as [v|]; [|eauto].
  destruct (find_negb_In (field_ok (heap st) d) schema e He) as [e' ->];
    [|eauto].
  unfold field_ok. rewrite Hnone.
  cbn in He. repeat (destruct He as [<-|He]; [reflexivity|]). destruct He.
Qed.

(** X6: validation only looks: whatever the data (a mapping or not) and
    whatever the outcome, the state after the call is the state before
    it. *)
Theorem resource_definition_leaves_state name data st :
  snd (_validate_resource_definition RES_TYPE RES_PROPERTIES RES_METADATA
         RES_DEPENDS_ON RES_DELETION_POLICY RES_UPDATE_POLICY
         RES_DESCRIPTION name data st) = st.
Proof.
  change (validate_definition name data st)
    with (bind (validate_resource_key_type RES_TYPE [T_str] "string" name
                  data)
            (fun present =>
               if negb present
               then raise (missing_type_error RES_TYPE name)
               else check_fields name data (tl schema)) st).
  unfold bind.
  destruct (validate_resource_key_type RES_TYPE [T_str] "string" name data st)
    as [[present|err] st0] eqn:Hv;
    apply validate_resource_key_type_state in Hv as ->; [|reflexivity].
  destruct present; cbn [negb]; [|reflexivity].
  destruct (check_fields name data (tl schema) st) as [out st'] eqn:Hc.
  now apply check_fields_state in Hc as ->.
Qed.

(** X7: data that is no mapping is never accepted: whatever it is (None,
    a number, a string, a list, a Function), the call raises and the state
    is as before. *)
Theorem resource_definition_not_mapping name data st :
  (forall d, view_of (heap st) data <> Object (ODict d)) ->
  exists err,
    _validate_resource_definition RES_TYPE RES_PROPERTIES RES_METADATA
      RES_DEPENDS_ON RES_DELETION_POLICY RES_UPDATE_POLICY RES_DESCRIPTION
      name data st = (Raise err, st).
Proof.
  intros Hnd. unfold _validate_resource_definition.
  unfold bind at 1. unfold validate_resource_key_type at 1.
  unfold bind at 1. unfold contains at 1.
  destruct (view_of (heap st) data) as [[| | |str|b]|[d|l|fn_name args]]
    eqn:Hv; try (eexists; reflexivity).
  - destruct (is_infix RES_TYPE str); [|eexists; reflexivity].
    unfold bind at 1. unfold getitem at 1. rewrite Hv.
    eexists; reflexivity.
  - now destruct (Hnd d).
  - destruct (existsb (value_eqb (VStr RES_TYPE)) l);
      [|eexists; reflexivity].
    unfold bind at 1. unfold getitem at 1. rewrite Hv.
    eexists; reflexivity.
Qed.

End ResourceDefinitionFacts.

(** ** More facts about the conditions *)

Lemma setitem_fields obj key v st out st' :
  setitem obj key v st = (out, st') ->
  _conditions st' = _conditions st /\ resolve_calls st' = resolve_calls st.
Proof.
  unfold setitem. destruct obj as [| | | |a]; try (now intros [= _ <-]).
  destruct (heap st !! a) as [[d|l|n x]|]; now intros [= _ <-].
Qed.

Section MoreTemplateFacts.

Variable stack : Type.
Variables CONDITION RESOURCES RES_CONDITION : string.
Variables OUTPUTS OUTPUT_CONDITION OUTPUT_VALUE : string.
Variable get_condition_definitions : list (string * value).
Variable has_condition_section : view -> bool.
Variable parse_condition :
  stack -> value -> list object -> outcome value * list object.
Variable function_resolve :
  value -> list object -> outcome value * list object.

Local Abbreviation resolve_loop :=
  (resolve_conditions_loop stack parse_condition function_resolve).
Local Abbreviation resolve :=
  (resolve_conditions stack get_condition_definitions parse_condition
     function_resolve).
Local Abbreviation get_cond :=
  (get_condition stack CONDITION get_condition_definitions
     has_condition_section parse_condition function_resolve).
Local Abbreviation apply_cond :=
  (apply_output_condition stack CONDITION OUTPUTS OUTPUT_CONDITION
     OUTPUT_VALUE get_condition_definitions has_condition_section
     parse_condition function_resolve).
Local Abbreviation iter :=
  (iter_outputs stack CONDITION OUTPUTS OUTPUT_CONDITION
     OUTPUT_VALUE get_condition_definitions has_condition_section
     parse_condition function_resolve).
Local Abbreviation parse_outputs :=
  (parse_outputs_conditions stack CONDITION OUTPUTS OUTPUT_CONDITION
     OUTPUT_VALUE get_condition_definitions has_condition_section
     parse_condition function_resolve).

(** The definitions that are not boolean literals. *)
Definition unresolved (items : list (string * value))
  : list (string * value) :=
  List.filter (fun kv => negb (is_bool (snd kv))) items.

(** [cf] is what parse_condition made of the definition [kv]. *)
Definition parsed_from (s : stack) (kv : string * value) (cf : value)
  : Prop :=
  exists h new, parse_condition s (snd kv) h = (Ok cf, new).

Lemma resolve_conditions_loop_calls s result items st out st' :
  resolve_loop s result items st = (out, st') ->
  exists funcs n,
    resolve_calls st' = resolve_calls st ++ funcs /\
    Forall2 (parsed_from s) (firstn n (unresolved items)) funcs /\
    (out = Ok tt -> firstn n (unresolved items) = unresolved items).
Proof.
  revert st out st'.
  induction items as [|[cd_key cd_value] rest IH]; intros st out st'.
  - cbn. intros [= <- <-]. exists [], 0. rewrite app_nil_r. cbn.
    split; [reflexivity|]. split; [constructor|reflexivity].
  - cbn [resolve_conditions_loop unresolved List.filter snd].
    destruct (is_bool cd_value) eqn:Hb; cbn [negb].
    + unfold bind at 1.
      destruct (setitem result cd_key cd_value st) as [[[]|e] st1] eqn:Hs;
        apply setitem_fields in Hs as [_ Hc].
      * intros H. apply IH in H as (funcs & n & Hcalls & Hall & Hok).
        exists funcs, n. rewrite <- Hc. auto.
      * intros [= <- <-]. exists [], 0. rewrite Hc, app_nil_r. cbn.
        split; [reflexivity|]. split; [constructor|discriminate].
    + unfold bind at 1. unfold bind at 1.
      unfold call_parse_condition at 1.
      destruct (parse_condition s cd_value (heap st)) as [[cf|e] new1]
        eqn:Hp.
      2:{ intros [= <- <-]. exists [], 0. cbn. rewrite app_nil_r.
          split; [reflexivity|]. split; [constructor|discriminate]. }
      assert (Hcf : parsed_from s (cd_key, cd_value) cf)
        by (exists (heap st), new1; exact Hp).
      unfold bind at 1. unfold call_function_resolve at 1.
      cbn [heap set_heap _conditions resolve_calls].
      destruct (function_resolve cf (heap st ++ new1)) as [[r|e] new2].
      2:{ intros [= <- <-]. exists [cf], 1. cbn.
          split; [reflexivity|]. split; [|discriminate].
          constructor; [exact Hcf|constructor]. }
      match goal with |- context [setitem result cd_key r ?st1] =>
        destruct (setitem result cd_key r st1) as [[[]|e] st2] eqn:Hs;
        apply setitem_fields in Hs as [_ Hc]; cbn in Hc
      end.
      * intros H. apply IH in H as (funcs & n & Hcalls & Hall & Hok).
        exists (cf :: funcs), (S n). rewrite Hcalls, Hc, <- app_assoc. cbn.
        split; [reflexivity|]. split; [now constructor|].
        intros Ho. unfold unresolved in Hok. now rewrite (Hok Ho).
      * intros [= <- <-]. exists [cf], 1. rewrite Hc. cbn.
        split; [reflexivity|]. split; [|discriminate].
        constructor; [exact Hcf|constructor].
Qed.

(** X8: what resolve_conditions passes to function.resolve is, in order,
    what parse_condition made of each definition that is not a boolean
    literal: of all of them, each once, when it returns, and of the first
    so many when it raises.  A boolean literal is never passed to the
    evaluator. *)
Theorem resolve_conditions_evaluates_once s st out st' :
  resolve_conditions stack get_condition_definitions parse_condition
    function_resolve s st = (out, st') ->
  exists funcs n,
    resolve_calls st' = resolve_calls st ++ funcs /\
    Forall2 (parsed_from s)
      (firstn n (unresolved get_condition_definitions)) funcs /\
    (forall r, out = Ok r ->
       Forall2 (parsed_from s) (unresolved get_condition_definitions) funcs).
Proof.
  unfold resolve_conditions. unfold bind at 1, alloc at 1.
  unfold bind at 1.
  destruct (resolve_loop s (VRef (length (heap st)))
              get_condition_definitions
              (set_heap st (heap st ++ [ODict []]))) as [[[]|e] st1] eqn:Hl;
    apply resolve_conditions_loop_calls in Hl
      as (funcs & n & Hcalls & Hall & Hok);
    cbn in Hcalls; intros [= <- <-]; exists funcs, n;
    (split; [exact Hcalls|]); (split; [exact Hall|]).
  - intros r _. now rewrite <- (Hok eq_refl).
  - discriminate.
Qed.

(** X9: whatever its outcome, resolve_conditions leaves the cache as it is
    and every object of the store as it is: it only appends to the store;
    what it returns is a new mapping. *)
Theorem resolve_conditions_frame s st out st' :
  resolve_conditions stack get_condition_definitions parse_condition
    function_resolve s st = (out, st') ->
  _conditions st' = _conditions st /\
  (exists new, heap st' = heap st ++ new) /\
  forall r, out = Ok r ->
    r = VRef (length (heap st)) /\
    exists d, heap st' !! length (heap st) = Some (ODict d).
Proof.
  intros H.
  apply (resolve_conditions_inv stack get_condition_definitions
           parse_condition function_resolve (fun _ => True)) in H
    as (d & k & calls' & -> & _ & Hr); [|auto].
  cbn. split; [reflexivity|]. split; [eauto|].
  intros r Hout. split; [now apply Hr|]. exists d. apply lookup_middle.
Qed.

Lemma resolve_conditions_loop_keys s items :
  forall h0 d k cond calls st',
    NoDup (map fst d ++ map fst items) ->
    resolve_loop s (VRef (length h0)) items
      (mkState (h0 ++ ODict d :: k) cond calls) = (Ok tt, st') ->
    exists d' k' calls',
      st' = mkState (h0 ++ ODict d' :: k') cond calls' /\
      map fst d' = map fst d ++ map fst items /\
      (forall key v, dict_get key d = Some v -> dict_get key d' = Some v) /\
      (forall key b, In (key, VBool b) items ->
         dict_get key d' = Some (VBool b)).
Proof.
  induction items as [|[cd_key cd_value] rest IH];
    intros h0 d k cond calls st' Hnd.
  - cbn. intros [= <-]. exists d, k, calls. rewrite app_nil_r.
    split; [reflexivity|]. split; [reflexivity|]. split; [auto|].
    intros key b [].
  - assert (Hfresh : dict_get cd_key d = None).
    { apply dict_get_None_keys. intros Hin.
      apply NoDup_app in Hnd as (_ & Hdisj & _).
      apply (Hdisj cd_key); [now apply list_elem_of_In|]. cbn. left. }
    assert (Hstep : forall x k1 calls1 st1,
      resolve_loop s (VRef (length h0)) rest
        (mkState (h0 ++ ODict (dict_set cd_key x d) :: k1) cond calls1)
      = (Ok tt, st1) ->
      exists d' k' calls',
        st1 = mkState (h0 ++ ODict d' :: k') cond calls' /\
        map fst d' = map fst d ++ cd_key :: map fst rest /\
        (forall key v, dict_get key d = Some v -> dict_get key d' = Some v) /\
        dict_get cd_key d' = Some x /\
        (forall key b, In (key, VBool b) rest ->
           dict_get key d' = Some (VBool b))).
    { intros x k1 calls1 st1 Hrest.
      apply IH in Hrest as (d' & k' & calls' & -> & Hkeys & Hold & Hlit).
      2:{ rewrite (dict_set_fresh _ _ _ Hfresh), map_app. cbn.
          now rewrite <- app_assoc. }
      exists d', k', calls'. split; [reflexivity|].
      rewrite (dict_set_fresh _ _ _ Hfresh), map_app in Hkeys. cbn in Hkeys.
      rewrite <- app_assoc in Hkeys. split; [exact Hkeys|].
      split; [|split; [|exact Hlit]].
      - intros key v Hv. apply Hold. rewrite dict_get_set_ne; [exact Hv|].
        intros <-. congruence.
      - apply Hold. apply dict_get_set_eq. }
    cbn [resolve_conditions_loop map fst].
    destruct (is_bool cd_value) eqn:Hb; cbn [negb].
    + unfold bind at 1. intros Hrest. rewrite setitem_middle in Hrest.
      apply Hstep in Hrest as (d' & k' & calls' & -> & Hkeys & Hold & Hx & Hlit).
      exists d', k', calls'. split; [reflexivity|].
      split; [exact Hkeys|]. split; [exact Hold|].
      intros key b [[= -> ->]|Hin]; [exact Hx|now apply Hlit].
    + unfold bind at 1. unfold bind at 1.
      unfold call_parse_condition at 1. cbn [heap set_heap].
      destruct (parse_condition s cd_value (h0 ++ ODict d :: k))
        as [[cf|e] new1]; [|discriminate].
      unfold bind at 1. unfold call_function_resolve at 1.
      cbn [heap set_heap _conditions resolve_calls].
      destruct (function_resolve cf ((h0 ++ ODict d :: k) ++ new1))
        as [[r|e] new2]; [|discriminate].
      replace (((h0 ++ ODict d :: k) ++ new1) ++ new2)
        with (h0 ++ ODict d :: (k ++ new1 ++ new2))
        by (now rewrite <- !app_assoc).
      intros Hrest. rewrite setitem_middle in Hrest.
      apply Hstep in Hrest as (d' & k' & calls' & -> & Hkeys & Hold & Hx & Hlit).
      exists d', k', calls'. split; [reflexivity|].
      split; [exact Hkeys|]. split; [exact Hold|].
      intros key b [[= -> ->]|Hin]; [cbn in Hb; discriminate Hb|].
      now apply Hlit.
Qed.

(** X10: when resolve_conditions returns, the mapping it returns has the
    keys of the definitions, in their order, and a definition that is a
    boolean literal has that boolean as its value. *)
Theorem resolve_conditions_keys s st r st' :
  NoDup (map fst get_condition_definitions) ->
  resolve_conditions stack get_condition_definitions parse_condition
    function_resolve s st = (Ok r, st') ->
  exists d,
    r = VRef (length (heap st)) /\
    heap st' !! length (heap st) = Some (ODict d) /\
    map fst d = map fst get_condition_definitions /\
    forall key b, In (key, VBool b) get_condition_definitions ->
      dict_get key d = Some (VBool b).
Proof.
  intros Hnd. unfold resolve_conditions. unfold bind at 1, alloc at 1.
  unfold bind at 1. unfold set_heap. cbn [heap _conditions resolve_calls].
  destruct (resolve_loop s (VRef (length (heap st)))
              get_condition_definitions _) as [[[]|e] st1] eqn:Hl;
    [|discriminate].
  apply (resolve_conditions_loop_keys s _ (heap st) [] []) in Hl
    as (d & k & calls' & -> & Hkeys & _ & Hlit); [|exact Hnd].
  intros [= <- <-]. exists d. cbn.
  split; [reflexivity|]. split; [apply lookup_middle|]. auto.
Qed.

Lemma check_condition_definitions_state items st out st' :
  check_condition_definitions items st = (out, st') -> st' = st.
Proof.
  induction items as [|[cd_key cd_value] rest IH]; cbn.
  - now intros [= _ <-].
  - destruct (is_bool cd_value); cbn; [exact IH|now intros [= _ <-]].
Qed.

(** X11: validate_condition_definitions goes by resolve_conditions, not by
    the cache: it leaves the state exactly as resolve_conditions does, the
    cache as it was (so a later conditions(stack) resolves again), and an
    exception of the evaluator comes out of it unchanged. *)
Theorem validate_condition_definitions_state s st :
  snd (validate_condition_definitions stack get_condition_definitions
         parse_condition function_resolve s st)
  = snd (resolve_conditions stack get_condition_definitions parse_condition
           function_resolve s st) /\
  _conditions
    (snd (validate_condition_definitions stack get_condition_definitions
            parse_condition function_resolve s st))
  = _conditions st /\
  forall e,
    fst (resolve_conditions stack get_condition_definitions parse_condition
           function_resolve s st) = Raise e ->
    fst (validate_condition_definitions stack get_condition_definitions
           parse_condition function_resolve s st) = Raise e.
Proof.
  assert (Hsnd :
    (snd (validate_condition_definitions stack get_condition_definitions
            parse_condition function_resolve s st)
     = snd (resolve s st)) /\
    forall e, fst (resolve s st) = Raise e ->
      fst (validate_condition_definitions stack get_condition_definitions
             parse_condition function_resolve s st) = Raise e).
  { unfold validate_condition_definitions, bind.
    destruct (resolve s st) as [[r|e] st1]; [|cbn; split; [reflexivity|now intros ? [= ->]]].
    cbn [fst snd]. split; [|discriminate].
    destruct (truthy (heap st1) r); [|reflexivity].
    destruct (view_of (heap st1) r) as [w|[d|l|n x]]; try reflexivity.
    destruct (check_condition_definitions d st1) as [out st2] eqn:Hc.
    now apply check_condition_definitions_state in Hc as ->. }
  destruct Hsnd as [Hsnd Hraise]. split; [exact Hsnd|].
  split; [|exact Hraise]. rewrite Hsnd.
  destruct (resolve s st) as [out st1] eqn:Hr.
  apply (resolve_conditions_inv stack get_condition_definitions
           parse_condition function_resolve (fun _ => True)) in Hr
    as (d & k & calls' & -> & _); [reflexivity|auto].
Qed.

(** Once the conditions are resolved, get_condition only reads. *)
Lemma get_condition_cached_state snippet s path st out st' :
  _conditions st <> VNone ->
  get_cond snippet s path st = (out, st') -> st' = st.
Proof.
  intros Hc. unfold get_condition.
  destruct (has_condition_section (view_of (heap st) snippet));
    [|now intros [= _ <-]].
  unfold bind at 1.
  destruct (getitem snippet (VStr CONDITION) st) as [[cd_key|e] st0] eqn:Hg;
    apply getitem_inv in Hg as [-> _]; [|now intros [= _ <-]].
  unfold bind at 1. unfold conditions at 1.
  destruct (_conditions st) as [| | | |r] eqn:Hcache; [congruence| | | |];
    (unfold bind at 1;
     match goal with |- context [contains ?c cd_key st] =>
       destruct (contains c cd_key st) as [[present|e] st0] eqn:Hin;
       apply contains_state in Hin as ->; [|now intros [= _ <-]];
       destruct present; cbn [negb]; [|now intros [= _ <-]];
       unfold bind;
       destruct (getitem c cd_key st) as [[cd|e] st0] eqn:Hg2;
       apply getitem_inv in Hg2 as [-> _]; now intros [= _ <-]
     end).
Qed.

(** X12: once the conditions are resolved, get_res_condition and
    get_output_condition only read: whatever the snippet and the outcome,
    the state (the store, the cache, the calls of function.resolve) is as
    before. *)
Theorem condition_lookup_reads_only s data name st :
  _conditions st <> VNone ->
  snd (get_res_condition stack CONDITION RESOURCES RES_CONDITION
         get_condition_definitions has_condition_section parse_condition
         function_resolve s data name st) = st /\
  snd (get_output_condition stack CONDITION OUTPUTS OUTPUT_CONDITION
         get_condition_definitions has_condition_section parse_condition
         function_resolve s data name st) = st.
Proof.
  intros Hc. split.
  - unfold get_res_condition.
    match goal with |- snd (get_cond data s ?p st) = st =>
      destruct (get_cond data s p st) as [out st'] eqn:Hg
    end.
    now apply get_condition_cached_state in Hg as ->.
  - unfold get_output_condition.
    match goal with |- snd (get_cond data s ?p st) = st =>
      destruct (get_cond data s p st) as [out st'] eqn:Hg
    end.
    now apply get_condition_cached_state in Hg as ->.
Qed.

(** X13: a condition field that holds an immutable value that is no string
    (None, a boolean, a number) names no condition: once the conditions are
    resolved to a mapping, it is reported as an invalid reference, with that
    value. *)
Theorem get_condition_not_a_name a d cd_key r dc s path st :
  has_condition_section (view_of (heap st) (VRef a)) = true ->
  heap st !! a = Some (ODict d) ->
  dict_get CONDITION d = Some cd_key ->
  is_ref cd_key = false ->
  (forall name, cd_key <> VStr name) ->
  _conditions st = VRef r ->
  heap st !! r = Some (ODict dc) ->
  get_condition stack CONDITION get_condition_definitions
    has_condition_section parse_condition function_resolve
    (VRef a) s path st
  = (Raise (InvalidConditionReference cd_key path), st).
Proof.
  intros Hhas Ha Hk Hnr Hns Hc Hr. unfold get_condition. rewrite Hhas.
  unfold bind at 1. unfold getitem at 1. cbn. rewrite Ha, Hk.
  unfold bind at 1. unfold conditions. rewrite Hc.
  unfold bind, contains, raise. cbn. rewrite Hr.
  destruct cd_key as [| | |name|]; try reflexivity.
  - now destruct (Hns name).
  - discriminate.
Qed.

(** One turn of the loop of parse_outputs_conditions, the conditions being
    resolved: the cache and the calls of function.resolve stay. *)
Lemma apply_output_condition_cached s key v st out st' :
  _conditions st <> VNone ->
  apply_cond s key v st = (out, st') ->
  _conditions st' = _conditions st /\ resolve_calls st' = resolve_calls st.
Proof.
  intros Hc. unfold apply_output_condition.
  destruct (has_condition_section (view_of (heap st) v));
    [|now intros [= _ <-]].
  unfold bind at 1. unfold get_output_condition.
  match goal with |- context [get_cond v s ?p st] =>
    destruct (get_cond v s p st) as [[cd|e] st0] eqn:Hg;
    apply get_condition_cached_state in Hg as ->; try exact Hc
  end; [|now intros [= _ <-]].
  unfold bind at 1.
  destruct (setitem v OUTPUT_CONDITION cd st) as [[[]|e] st1] eqn:Hs1;
    apply setitem_fields in Hs1 as [Hc1 Hr1]; [|now intros [= _ <-]].
  destruct (negb (truthy (heap st1) cd)).
  - intros Hs2. apply setitem_fields in Hs2 as [Hc2 Hr2]. split; congruence.
  - now intros [= _ <-].
Qed.

(** X14: once the conditions are resolved, parse_outputs_conditions does
    not evaluate anything: whatever the outputs and the outcome, the cache
    and the calls of function.resolve are as before. *)
Theorem parse_outputs_conditions_cached outputs s st out st' :
  _conditions st <> VNone ->
  parse_outputs_conditions stack CONDITION OUTPUTS OUTPUT_CONDITION
    OUTPUT_VALUE get_condition_definitions has_condition_section
    parse_condition function_resolve outputs s st = Some (out, st') ->
  _conditions st' = _conditions st /\ resolve_calls st' = resolve_calls st.
Proof.
  intros Hc. unfold parse_outputs_conditions.
  destruct (deepcopy outputs (heap st)) as [[[c m] h1]|]; [|discriminate].
  unfold bind, for_outputs.
  destruct (view_of (heap (set_heap st h1)) c) as [w|[d|l|n x]];
    try (now intros [= _ <-]).
  destruct c as [| | | |c]; try (now intros [= _ <-]).
  destruct (iter s c (length d) 0 (length d) (set_heap st h1))
    as [[[]|e] st1] eqn:Hi; intros [= _ <-];
    exact (iter_outputs_preserves stack CONDITION OUTPUTS OUTPUT_CONDITION
             OUTPUT_VALUE get_condition_definitions has_condition_section
             parse_condition function_resolve
             (fun st1 => _conditions st1 = _conditions st /\
                         resolve_calls st1 = resolve_calls st)
             s c (length d)
             ltac:(intros st2 ? ? ? ? ? st3 [H1 H2] _ _ Ha;
                   apply apply_output_condition_cached in Ha as [H3 H4];
                   [split; congruence|congruence])
             _ _ (set_heap st h1) _ _ (conj eq_refl eq_refl) Hi).
Qed.

(** The loop over snippets none of which has a condition section changes
    nothing. *)
Lemma iter_outputs_unconditional s c d :
  (forall w, has_condition_section w = false) ->
  forall fuel i st,
    heap st !! c = Some (ODict d) ->
    iter s c (length d) i fuel st = (Ok tt, st).
Proof.
  intros Hno fuel.
  induction fuel as [|fuel IH]; intros i st Hc; cbn [iter_outputs];
    rewrite Hc, Nat.eqb_refl; cbn [negb].
  - now destruct (d !! i) as [[key v]|].
  - destruct (d !! i) as [[key v]|]; [|reflexivity].
    unfold bind, apply_output_condition. rewrite Hno. now apply IH.
Qed.

(** X15: with the hook of the base class, for which no snippet has a
    condition section, parse_outputs_conditions is copy.deepcopy: it
    returns the copy of the outputs mapping and leaves the store as the copy
    made it, the cache and the calls of function.resolve as they were. *)
Theorem parse_outputs_conditions_is_deepcopy a0 d0 s st :
  (forall w, has_condition_section w = false) ->
  store_closed (heap st) = true ->
  heap st !! a0 = Some (ODict d0) ->
  exists c m h1,
    deepcopy (VRef a0) (heap st) = Some (VRef c, m, h1) /\
    h1 !! c = Some (copy_of m (ODict d0)) /\
    parse_outputs_conditions stack CONDITION OUTPUTS OUTPUT_CONDITION
      OUTPUT_VALUE get_condition_definitions has_condition_section
      parse_condition function_resolve (VRef a0) s st
    = Some (Ok (VRef c), set_heap st h1).
Proof.
  intros Hno Hclosed Ha0.
  assert (Hlt : value_closed (length (heap st)) (VRef a0) = true).
  { cbn. apply Nat.ltb_lt. now apply lookup_lt_Some in Ha0. }
  destruct (deepcopy_spec (heap st) (VRef a0) Hclosed Hlt)
    as (m & h1 & Hd & _ & _ & Hcomp & Hcov).
  specialize (Hcov a0 eq_refl).
  destruct (memo_get a0 m) as [c|] eqn:Hc; [clear Hcov|congruence].
  assert (Hrn : rename m (VRef a0) = VRef c) by (cbn; now rewrite Hc).
  rewrite Hrn in Hd.
  destruct (Hcomp a0 c Hc) as (o0 & Ho0 & Hcopy & _).
  rewrite Ha0 in Ho0. injection Ho0 as <-.
  exists c, m, h1. split; [exact Hd|]. split; [exact Hcopy|].
  unfold parse_outputs_conditions. rewrite Hd.
  unfold bind, for_outputs. cbn [view_of set_heap heap].
  rewrite Hcopy, copy_of_dict.
  rewrite iter_outputs_unconditional; [reflexivity|exact Hno|].
  cbn [heap set_heap]. now rewrite Hcopy, copy_of_dict.
Qed.

(** X16: outputs that is no mapping and no Function: for an immutable
    value (None, a string, a number) the copy is the value itself, for a
    list it is a new list; then asking for its items raises the
    AttributeError that names the class of outputs.  The store is as the
    copy left it, the cache and the calls of function.resolve as they
    were. *)
Theorem parse_outputs_conditions_not_mapping outputs s st :
  store_closed (heap st) = true ->
  value_closed (length (heap st)) outputs = true ->
  (forall d, view_of (heap st) outputs <> Object (ODict d)) ->
  (forall fn_name args,
     view_of (heap st) outputs <> Object (OFunc fn_name args)) ->
  exists m h1 t,
    deepcopy outputs (heap st) = Some (rename m outputs, m, h1) /\
    (is_ref outputs = false -> h1 = heap st) /\
    type_of (heap st) outputs = Some t /\
    parse_outputs_conditions stack CONDITION OUTPUTS OUTPUT_CONDITION
      OUTPUT_VALUE get_condition_definitions has_condition_section
      parse_condition function_resolve outputs s st
    = Some (Raise (AttributeError
                     ("'" ++ type_name t
                          ++ "' object has no attribute 'items'")%string),
            set_heap st h1).
Proof.
  intros Hclosed Hout Hnd Hnf.
  destruct outputs as [|b|z|str|a].
  1-4: exists [], (heap st); eexists;
    (split; [reflexivity|]); (split; [reflexivity|]);
    (split; [reflexivity|]); reflexivity.
  destruct (deepcopy_spec (heap st) (VRef a) Hclosed Hout)
    as (m & h1 & Hd & _ & _ & Hcomp & Hcov).
  specialize (Hcov a eq_refl).
  destruct (memo_get a m) as [c|] eqn:Hc; [clear Hcov|congruence].
  assert (Hrn : rename m (VRef a) = VRef c) by (cbn; now rewrite Hc).
  rewrite Hrn in Hd.
  destruct (Hcomp a c Hc) as (o & Ho & Hcopy & _).
  cbn [view_of] in Hnd, Hnf. rewrite Ho in Hnd, Hnf.
  destruct o as [d|l|fn_name args];
    [now destruct (Hnd d)| |now destruct (Hnf fn_name args)].
  exists m, h1, T_list. rewrite Hrn.
  split; [exact Hd|]. split; [discriminate|].
  split; [cbn; now rewrite Ho|].
  unfold parse_outputs_conditions. rewrite Hd.
  unfold bind, for_outputs, no_attribute.
  cbn [view_of type_of set_heap heap]. now rewrite Hcopy.
Qed.

(** The loop passes over items without a condition section. *)
Lemma iter_outputs_skip s c d st :
  heap st !! c = Some (ODict d) ->
  forall n i fuel,
    i + n <= length d ->
    (forall j key v,
       i <= j < i + n -> d !! j = Some (key, v) ->
       has_condition_section (view_of (heap st) v) = false) ->
    iter s c (length d) i (n + fuel) st
    = iter s c (length d) (i + n) fuel st.
Proof.
  intros Hc n.
  induction n as [|n IH]; intros i fuel Hlen Hno.
  - now rewrite Nat.add_0_r.
  - cbn [Nat.add iter_outputs]. rewrite Hc, Nat.eqb_refl. cbn [negb].
    destruct (lookup_lt_is_Some_2 d i ltac:(lia)) as [[key v] Hi].
    rewrite Hi. unfold bind at 1. unfold apply_output_condition at 1.
    rewrite (Hno i key v ltac:(lia) Hi).
    rewrite IH; [f_equal; lia|lia|].
    intros j key' v' Hj. apply Hno. lia.
Qed.

(** X17: parse_outputs_conditions stops at the first output whose condition
    cannot be found: when the outputs before it in the copy have no
    condition section and get_output_condition raises for it, the call
    raises that exception and leaves the state as get_output_condition left
    it; the outputs after it are not looked at. *)
Theorem parse_outputs_conditions_fail_fast
    outputs s st c m h1 pre key snippet post e st1 :
  deepcopy outputs (heap st) = Some (VRef c, m, h1) ->
  h1 !! c = Some (ODict (pre ++ (key, snippet) :: post)) ->
  (forall kv, In kv pre ->
     has_condition_section (view_of h1 (snd kv)) = false) ->
  has_condition_section (view_of h1 snippet) = true ->
  get_output_condition stack CONDITION OUTPUTS OUTPUT_CONDITION
    get_condition_definitions has_condition_section parse_condition
    function_resolve s snippet key (set_heap st h1) = (Raise e, st1) ->
  parse_outputs_conditions stack CONDITION OUTPUTS OUTPUT_CONDITION
    OUTPUT_VALUE get_condition_definitions has_condition_section
    parse_condition function_resolve outputs s st
  = Some (Raise e, st1).
Proof.
  intros Hd Hc Hpre Hhas Hget.
  unfold parse_outputs_conditions. rewrite Hd.
  unfold bind at 1. unfold for_outputs. cbn [view_of set_heap heap].
  rewrite Hc. set (d := pre ++ (key, snippet) :: post) in *.
  assert (Hlen : length d = length pre + S (length post)).
  { unfold d. now rewrite length_app. }
  assert (Hc' : heap (set_heap st h1) !! c = Some (ODict d)) by exact Hc.
  replace (length d) with (length pre + S (length post)) at 2 by lia.
  change (mkState h1 (_conditions st) (resolve_calls st))
    with (set_heap st h1).
  rewrite (iter_outputs_skip s c d _ Hc' (length pre) 0 (S (length post)));
    [|lia|].
  - cbn [Nat.add iter_outputs]. rewrite Hc', Nat.eqb_refl. cbn [negb].
    unfold d at 1. rewrite list_lookup_middle by reflexivity.
    unfold bind at 1. unfold apply_output_condition at 1.
    cbn [heap set_heap]. rewrite Hhas. unfold bind at 1.
    change (mkState h1 (_conditions st) (resolve_calls st))
      with (set_heap st h1).
    now rewrite Hget.
  - intros j key' v' Hj Hjd. cbn [heap set_heap].
    unfold d in Hjd. rewrite lookup_app_l in Hjd by lia.
    apply (Hpre (key', v')).
    apply list_elem_of_In, list_elem_of_lookup. eauto.
Qed.

(** X18: parse_outputs_conditions writes to nothing but the condition and
    the value of the outputs that have a condition section.  Every object
    that copy.deepcopy made and that is not the copy of such an output is,
    after the call, still the copy of its original (the original with the
    references it holds renamed to the copies); the copy of such an output
    keeps every other field. *)
Theorem parse_outputs_conditions_keeps_rest a0 d0 s st res st' :
  store_closed (heap st) = true ->
  value_closed (length (heap st)) (_conditions st) = true ->
  heap st !! a0 = Some (ODict d0) ->
  NoDup (a0 :: refs (map snd d0)) ->
  parse_outputs_conditions stack CONDITION OUTPUTS OUTPUT_CONDITION
    OUTPUT_VALUE get_condition_definitions has_condition_section
    parse_condition function_resolve (VRef a0) s st = Some (Ok res, st') ->
  exists m h1 c,
    deepcopy (VRef a0) (heap st) = Some (VRef c, m, h1) /\
    res = VRef c /\
    (forall a y, memo_get a m = Some y ->
       (forall key, In (key, VRef a) d0 ->
          has_condition_section (view_of h1 (VRef y)) = false) ->
       exists o, heap st !! a = Some o /\ heap st' !! y = Some (copy_of m o))
    /\
    (forall key v, In (key, v) d0 ->
       has_condition_section (view_of h1 (rename m v)) = true ->
       exists a' ds final,
         rename m v = VRef a' /\
         h1 !! a' = Some (ODict ds) /\
         heap st' !! a' = Some (ODict final) /\
         forall k, k <> OUTPUT_CONDITION -> k <> OUTPUT_VALUE ->
           dict_get k final = dict_get k ds).
Proof.
  intros Hclosed Hcache Ha0 Hnd Hparse.
  destruct (parse_outputs_conditions_entries stack CONDITION OUTPUTS
              OUTPUT_CONDITION OUTPUT_VALUE get_condition_definitions
              has_condition_section parse_condition function_resolve
              a0 d0 s st res st' Hclosed Hcache Ha0 Hnd Hparse)
    as (m & h1 & c & Hd & Hres & _ & Hitems & Hrest).
  exists m, h1, c. split; [exact Hd|]. split; [exact Hres|].
  split; [exact Hrest|].
  intros key v Hin Hhas. destruct (Hitems key v Hin) as [_ Happ].
  destruct (Happ Hhas) as (a & o & a' & ds & name & r & dc & cd & t
      & _ & _ & Hv' & _ & Hds & _ & _ & _ & _ & Hfin & _).
  exists a', ds, (applied OUTPUT_CONDITION OUTPUT_VALUE t cd ds).
  split; [exact Hv'|]. split; [exact Hds|]. split; [exact Hfin|].
  intros k Hk1 Hk2. unfold applied. destruct t.
  - apply dict_get_set_ne. congruence.
  - rewrite dict_get_set_ne by congruence. apply dict_get_set_ne. congruence.
Qed.

End MoreTemplateFacts.

(** ** A dialect and two evaluators to run the methods on *)

(** Modelled from the spec: has_condition_section of a dialect whose
    snippets carry their condition under the key "condition" (the class
    constants of the concrete template are "resources", "outputs",
    "condition" and "value"). *)
Definition hot_has_condition_section (snippet : view) : bool :=
  match snippet with
  | Object (ODict d) => dict_mem "condition" d
  | _ => false
  end.

(** Parsing a condition that holds no function gives it back. *)
Definition plain_parse_condition (s : nat) (cd_value : value)
    (h : list object) : outcome value * list object :=
  (Ok cd_value, []).

(** An evaluator that gives back what is no function, and fails on one
    expression. *)
Definition plain_resolve (condition_func : value) (h : list object)
  : outcome value * list object :=
  match condition_func with
  | VStr "boom" => (Raise (ValueError "boom"), [])
  | _ => (Ok condition_func, [])
  end.

(** An evaluator whose results are booleans. *)
Definition truth_resolve (condition_func : value) (h : list object)
  : outcome value * list object :=
  (Ok (VBool (truthy h condition_func)), []).

(** With the hooks CommonTemplate itself gives, no snippet has a condition
    and the resolved conditions are an empty mapping. *)
Example get_condition_default (snippet : value) (s : nat) path st :
  get_condition nat "condition" default_get_condition_definitions
    default_has_condition_section plain_parse_condition plain_resolve
    snippet s path st
  = (Ok (VBool true), st).
Proof. reflexivity. Qed.

Example resolve_conditions_default (s : nat) st :
  resolve_conditions nat default_get_condition_definitions
    plain_parse_condition plain_resolve s st
  = (Ok (VRef (length (heap st))), set_heap st (heap st ++ [ODict []])).
Proof. reflexivity. Qed.

(** outputs = {"out1": {"value": "x", "condition": "condA"}} at address 0,
    on a template whose conditions are not resolved yet. *)
Definition example_store : list object :=
  [ODict [("out1", VRef 1)];
   ODict [("value", VStr "x"); ("condition", VStr "condA")]].

Definition example_state : state := mkState example_store VNone [].

(** The same once the conditions {"condA": False} are resolved. *)
Definition resolved_state : state :=
  mkState (example_store ++ [ODict [("condA", VBool false)]]) (VRef 2) [].

Example parse_outputs_conditions_false :
  parse_outputs_conditions nat "condition" "outputs" "condition" "value"
    [("condA", VBool false)] hot_has_condition_section
    plain_parse_condition plain_resolve (VRef 0) 7 example_state
  = Some (Ok (VRef 2),
          mkState
            (example_store ++
             [ODict [("out1", VRef 3)];
              ODict [("value", VNone); ("condition", VBool false)];
              ODict [("condA", VBool false)]])
            (VRef 4) []).
Proof. reflexivity. Qed.

Example parse_outputs_conditions_true :
  parse_outputs_conditions nat "condition" "outputs" "condition" "value"
    [("condA", VBool true)] hot_has_condition_section
    plain_parse_condition plain_resolve (VRef 0) 7 example_state
  = Some (Ok (VRef 2),
          mkState
            (example_store ++
             [ODict [("out1", VRef 3)];
              ODict [("value", VStr "x"); ("condition", VBool true)];
              ODict [("condA", VBool true)]])
            (VRef 4) []).
Proof. reflexivity. Qed.

Example conditions_not_boolean :
  conditions nat [("condA", VStr "maybe")] plain_parse_condition
    plain_resolve 7 example_state
  = (Ok (VRef 2),
     mkState (example_store ++ [ODict [("condA", VStr "maybe")]]) (VRef 2)
       [VStr "maybe"]).
Proof. reflexivity. Qed.

(** C1, as stated, fails: with the definitions {"condA": "maybe"} and an
    evaluator that gives a string back, the cache holds the string. *)
Lemma conditions_cache_not_always_boolean :
  ~ (forall (stack : Type) defs parse_condition function_resolve
       (s : stack) st cds st',
       _conditions st = VNone ->
       conditions stack defs parse_condition function_resolve s st
       = (Ok cds, st') ->
       exists r d,
         cds = VRef r /\ heap st' !! r = Some (ODict d) /\
         forall k v, In (k, v) d -> is_bool v = true).
Proof.
  intros H.
  destruct (H nat _ _ _ 7 example_state _ _ eq_refl conditions_not_boolean)
    as (r & d & [= <-] & Hd & Hall).
  cbn in Hd. injection Hd as <-.
  specialize (Hall "condA" (VStr "maybe") (or_introl eq_refl)).
  discriminate Hall.
Qed.

(** ** The theorems at work *)

Definition typed_resource_state : state :=
  mkState
    [ODict [("type", VStr "OS::Nova::Server"); ("properties", VInt 3)]]
    VNone [].

Lemma validate_resource_key_type_spec_witness :
  heap typed_resource_state !! 0
  = Some (ODict [("type", VStr "OS::Nova::Server"); ("properties", VInt 3)])
  /\
  validate_resource_key_type "properties" [T_Mapping; T_Function] "object"
    "server" (VRef 0) typed_resource_state
  = (Raise (TypeError "Resource server properties type must be object"),
     typed_resource_state).
Proof.
  split; [reflexivity|].
  exact (validate_resource_key_type_spec "properties"
           [T_Mapping; T_Function] "object" "server" 0 _
           typed_resource_state eq_refl).
Defined.

Lemma truth_resolve_boolean cf h r new :
  truth_resolve cf h = (Ok r, new) -> is_bool r = true.
Proof. intros [= <- _]. reflexivity. Defined.


Definition boolean_cache_state : state :=
  mkState
    (example_store ++ [ODict [("condA", VBool false); ("condB", VBool true)]])
    (VRef 2) [VStr ""].

Lemma conditions_cache_boolean_witness :
  _conditions example_state = VNone /\
  conditions nat [("condA", VStr ""); ("condB", VBool true)]
    plain_parse_condition truth_resolve 7 example_state
  = (Ok (VRef 2), boolean_cache_state) /\
  exists r d,
    VRef 2 = VRef r /\ _conditions boolean_cache_state = VRef r /\
    heap boolean_cache_state !! r = Some (ODict d) /\
    forall k v, In (k, v) d -> is_bool v = true.
Proof.
  split; [reflexivity|]. split; [reflexivity|].
  exact (conditions_cache_boolean nat
           [("condA", VStr ""); ("condB", VBool true)]
           plain_parse_condition truth_resolve 7 example_state (VRef 2)
           boolean_cache_state truth_resolve_boolean eq_refl eq_refl).
Defined.

Definition string_cache_state : state :=
  mkState (example_store ++ [ODict [("condA", VStr "maybe")]]) (VRef 2)
    [VStr "maybe"].

Lemma conditions_memoized_witness :
  _conditions example_state = VNone /\
  conditions nat [("condA", VStr "maybe")] plain_parse_condition
    plain_resolve 7 example_state
  = (Ok (VRef 2), string_cache_state) /\
  (exists st',
     resolve_conditions nat [("condA", VStr "maybe")] plain_parse_condition
       plain_resolve 7 example_state = (Ok (VRef 2), st') /\
     string_cache_state
     = mkState (heap st') (VRef 2) (resolve_calls st')) /\
  forall s2,
    conditions nat [("condA", VStr "maybe")] plain_parse_condition
      plain_resolve s2 string_cache_state
    = (Ok (VRef 2), string_cache_state).
Proof.
  split; [reflexivity|]. split; [reflexivity|].
  exact (conditions_memoized nat [("condA", VStr "maybe")]
           plain_parse_condition plain_resolve 7 example_state (VRef 2)
           string_cache_state eq_refl eq_refl).
Defined.

Definition first_resolved_state : state :=
  mkState (example_store ++ [ODict [("condA", VBool true)]]) VNone [].

Definition failed_state : state :=
  mkState (example_store ++ [ODict [("condA", VBool true)]]) VNone
    [VStr "boom"].

Lemma evaluator_failure_aborts_resolution_witness :
  is_bool (VStr "boom") = false /\
  resolve_conditions nat [("condA", VBool true)] plain_parse_condition
    plain_resolve 7 example_state = (Ok (VRef 2), first_resolved_state) /\
  bind (call_parse_condition nat plain_parse_condition 7 (VStr "boom"))
    (call_function_resolve plain_resolve) first_resolved_state
  = (Raise (ValueError "boom"), failed_state) /\
  resolve_conditions nat
    [("condA", VBool true); ("condB", VStr "boom"); ("condC", VBool false)]
    plain_parse_condition plain_resolve 7 example_state
  = (Raise (ValueError "boom"), failed_state) /\
  conditions nat
    [("condA", VBool true); ("condB", VStr "boom"); ("condC", VBool false)]
    plain_parse_condition plain_resolve 7 example_state
  = (Raise (ValueError "boom"), failed_state) /\
  _conditions failed_state = VNone.
Proof.
  split; [reflexivity|]. split; [reflexivity|]. split; [reflexivity|].
  exact (evaluator_failure_aborts_resolution nat
           [("condA", VBool true); ("condB", VStr "boom");
            ("condC", VBool false)]
           plain_parse_condition plain_resolve 7 example_state
           [("condA", VBool true)] "condB" (VStr "boom")
           [("condC", VBool false)] (VRef 2) first_resolved_state
           (ValueError "boom") failed_state
           eq_refl eq_refl eq_refl eq_refl eq_refl).
Defined.

Definition mixed_resolved_state : state :=
  mkState
    (example_store ++ [ODict [("condA", VBool true); ("condB", VStr "maybe")]])
    VNone [VStr "maybe"].

Lemma mixed_definitions_distinct :
  NoDup (map fst [("condA", VBool true); ("condB", VStr "maybe")]).
Proof.
  apply NoDup_ListNoDup. cbn.
  repeat constructor; cbn; intuition discriminate.
Defined.

(** The evaluator of the examples returns for these two definitions. *)
Lemma mixed_definitions_evaluate :
  evaluates nat plain_parse_condition plain_resolve 7
    [("condA", VBool true); ("condB", VStr "maybe")].
Proof.
  intros key v h Hin Hb. exists v, [], v, [].
  split; [reflexivity|].
  destruct Hin as [[= <- <-]|[[= <- <-]|[]]];
    [discriminate Hb|reflexivity].
Defined.

Lemma validate_condition_definitions_spec_witness :
  (resolve_conditions nat [("condA", VBool true); ("condB", VStr "maybe")]
     plain_parse_condition plain_resolve 7 example_state
   = (Ok (VRef 2), mixed_resolved_state) /\
   heap mixed_resolved_state !! 2
   = Some (ODict [("condA", VBool true); ("condB", VStr "maybe")]) /\
   validate_condition_definitions nat
     [("condA", VBool true); ("condB", VStr "maybe")]
     plain_parse_condition plain_resolve 7 example_state
   = (Raise (InvalidConditionDefinition "condB" (VStr "maybe")),
      mixed_resolved_state)) /\
  exists d st1,
    resolve_conditions nat [("condA", VBool true); ("condB", VStr "maybe")]
      plain_parse_condition plain_resolve 7 example_state
    = (Ok (VRef (length (heap example_state))), st1) /\
    heap st1 !! length (heap example_state) = Some (ODict d) /\
    map fst d = map fst [("condA", VBool true); ("condB", VStr "maybe")] /\
    (forall key v,
       In (key, v) [("condA", VBool true); ("condB", VStr "maybe")] ->
       exists r,
         dict_get key d = Some r /\
         resolved_from nat plain_parse_condition plain_resolve 7 v r) /\
    validate_condition_definitions nat
      [("condA", VBool true); ("condB", VStr "maybe")]
      plain_parse_condition plain_resolve 7 example_state
    = match find (fun kv => negb (is_bool (snd kv))) d with
      | Some (cd_key, cd_value) =>
          (Raise (InvalidConditionDefinition cd_key cd_value), st1)
      | None => (Ok tt, st1)
      end.
Proof.
  split.
  - split; [reflexivity|]. split; [reflexivity|].
    exact (proj1 (validate_condition_definitions_spec nat
                    [("condA", VBool true); ("condB", VStr "maybe")]
                    plain_parse_condition plain_resolve 7 example_state)
             2 mixed_resolved_state _ eq_refl eq_refl).
  - exact (proj2 (validate_condition_definitions_spec nat
                    [("condA", VBool true); ("condB", VStr "maybe")]
                    plain_parse_condition plain_resolve 7 example_state)
             mixed_definitions_distinct mixed_definitions_evaluate).
Defined.

Lemma get_condition_spec_witness :
  get_condition nat "condition" [("condA", VBool false)]
    hot_has_condition_section plain_parse_condition plain_resolve
    (VRef 0) 7 "" resolved_state
  = (Ok (VBool true), resolved_state) /\
  get_condition nat "condition" [("condA", VBool false)]
    hot_has_condition_section plain_parse_condition plain_resolve
    (VRef 1) 7 "outputs.out1.condition" resolved_state
  = (Ok (VBool false), resolved_state).
Proof.
  split.
  - exact (proj1 (get_condition_spec nat "condition"
                    [("condA", VBool false)] hot_has_condition_section
                    plain_parse_condition plain_resolve (VRef 0) 7 ""
                    resolved_state) eq_refl).
  - exact (proj2 (get_condition_spec nat "condition"
                    [("condA", VBool false)] hot_has_condition_section
                    plain_parse_condition plain_resolve (VRef 1) 7
                    "outputs.out1.condition" resolved_state)
             1 _ "condA" 2 resolved_state _ (VBool false)
             eq_refl eq_refl eq_refl eq_refl eq_refl eq_refl eq_refl).
Defined.

Definition other_cache_state : state :=
  mkState (example_store ++ [ODict [("condB", VBool true)]]) (VRef 2) [].

Lemma undefined_condition_reference_witness :
  hot_has_condition_section (view_of (heap example_state) (VRef 1)) = true /\
  conditions nat [("condB", VBool true)] plain_parse_condition plain_resolve
    7 example_state = (Ok (VRef 2), other_cache_state) /\
  (forall path,
     get_condition nat "condition" [("condB", VBool true)]
       hot_has_condition_section plain_parse_condition plain_resolve
       (VRef 1) 7 path example_state
     = (Raise (InvalidConditionReference (VStr "condA") path),
        other_cache_state)) /\
  (forall res_name,
     get_res_condition nat "condition" "resources" "condition"
       [("condB", VBool true)] hot_has_condition_section
       plain_parse_condition plain_resolve 7 (VRef 1) res_name example_state
     = (Raise (InvalidConditionReference (VStr "condA")
                 ("resources." ++ res_name ++ ".condition")%string),
        other_cache_state)) /\
  (forall o_key,
     get_output_condition nat "condition" "outputs" "condition"
       [("condB", VBool true)] hot_has_condition_section
       plain_parse_condition plain_resolve 7 (VRef 1) o_key example_state
     = (Raise (InvalidConditionReference (VStr "condA")
                 ("outputs." ++ o_key ++ ".condition")%string),
        other_cache_state)).
Proof.
  split; [reflexivity|]. split; [reflexivity|].
  exact (undefined_condition_reference nat "condition" "resources"
           "condition" "outputs" "condition" [("condB", VBool true)]
           hot_has_condition_section plain_parse_condition plain_resolve
           1 _ "condA" 7 example_state 2 other_cache_state _
           eq_refl eq_refl eq_refl eq_refl eq_refl eq_refl).
Defined.

Definition suppressed_state : state :=
  mkState
    (example_store ++
     [ODict [("out1", VRef 3)];
      ODict [("value", VNone); ("condition", VBool false)];
      ODict [("condA", VBool false)]])
    (VRef 4) [].

Lemma example_outputs_apart :
  NoDup (0 :: refs (map snd [("out1", VRef 1)])).
Proof.
  apply NoDup_ListNoDup. cbn. repeat constructor; cbn; intuition lia.
Defined.















(** Why the snippets must be distinct objects: when two keys share one
    snippet, so do they in the copy; the second turn of the loop finds the
    resolved value where the name of the condition was and raises. *)
Example parse_outputs_conditions_shared_snippet :
  parse_outputs_conditions nat "condition" "outputs" "condition" "value"
    [("condA", VBool false)] hot_has_condition_section
    plain_parse_condition plain_resolve (VRef 0) 7
    (mkState
       [ODict [("out1", VRef 1); ("out2", VRef 1)];
        ODict [("value", VStr "x"); ("condition", VStr "condA")]]
       VNone [])
  = Some (Raise (InvalidConditionReference (VBool false)
                   "outputs.out2.condition"),
          mkState
            [ODict [("out1", VRef 1); ("out2", VRef 1)];
             ODict [("value", VStr "x"); ("condition", VStr "condA")];
             ODict [("out1", VRef 3); ("out2", VRef 3)];
             ODict [("value", VNone); ("condition", VBool false)];
             ODict [("condA", VBool false)]]
            (VRef 4) []).
Proof. reflexivity. Qed.

(** ** The further facts at work *)

(** Modelled from the spec: the keys of a resource definition, which the
    data model lists as type, properties, metadata, depends_on,
    deletion_policy, update_policy and description. *)
Definition hot_validate_resource_definition
  : string -> value -> M unit :=
  _validate_resource_definition "type" "properties" "metadata" "depends_on"
    "deletion_policy" "update_policy" "description".

Definition hot_resource_schema : list (string * list pytype * string) :=
  resource_schema "type" "properties" "metadata" "depends_on"
    "deletion_policy" "update_policy" "description".

(** A definition without type, one that is accepted (its properties a
    mapping, a key outside the schema among its keys), and one whose
    metadata is None. *)
Definition untyped_resource_state : state :=
  mkState [ODict [("properties", VInt 3)]] VNone [].

Definition server_resource : list (string * value) :=
  [("type", VStr "OS::Nova::Server"); ("properties", VRef 1);
   ("depends_on", VStr "db"); ("flavor", VInt 1)].

Definition plain_server_resource : list (string * value) :=
  [("type", VStr "OS::Nova::Server"); ("properties", VRef 1);
   ("depends_on", VStr "db")].

Definition server_resource_state : state :=
  mkState [ODict server_resource; ODict []; ODict plain_server_resource]
    VNone [].

Definition none_metadata_state : state :=
  mkState [ODict [("type", VStr "OS::Nova::Server"); ("metadata", VNone)]]
    VNone [].

Lemma resource_definition_missing_type_witness :
  hot_validate_resource_definition "server" (VRef 0) untyped_resource_state
  = (Raise (KeyError (VStr ("Resource server is missing "
                              ++ double_quote ++ "type" ++ double_quote)
                        %string)),
     untyped_resource_state).
Proof.
  exact (resource_definition_missing_type "type" "properties" "metadata"
           "depends_on" "deletion_policy" "update_policy" "description"
           "server" 0 [("properties", VInt 3)] untyped_resource_state
           eq_refl eq_refl).
Defined.

Lemma server_resource_typed : dict_get "type" server_resource <> None.
Proof. discriminate. Defined.

Lemma resource_definition_accepted_iff_witness :
  hot_validate_resource_definition "server" (VRef 0) server_resource_state
  = (Ok tt, server_resource_state).
Proof.
  apply (resource_definition_accepted_iff "type" "properties" "metadata"
           "depends_on" "deletion_policy" "update_policy" "description"
           "server" 0 server_resource server_resource_state eq_refl).
  split; [exact server_resource_typed|reflexivity].
Defined.

Lemma typed_resource_has_type :
  dict_get "type"
    [("type", VStr "OS::Nova::Server"); ("properties", VInt 3)] <> None.
Proof. discriminate. Defined.

Lemma resource_definition_first_error_witness :
  hot_validate_resource_definition "server" (VRef 0) typed_resource_state
  = (Raise (TypeError "Resource server properties type must be object"),
     typed_resource_state).
Proof.
  exact (resource_definition_first_error "type" "properties" "metadata"
           "depends_on" "deletion_policy" "update_policy" "description"
           "server" 0
           [("type", VStr "OS::Nova::Server"); ("properties", VInt 3)]
           typed_resource_state
           [("type", [T_str], "string")]
           ("properties", [T_Mapping; T_Function], "object")
           (tl (tl hot_resource_schema))
           eq_refl typed_resource_has_type eq_refl eq_refl eq_refl).
Defined.

Lemma server_resources_agree e :
  In e hot_resource_schema ->
  dict_get (fst (fst e)) server_resource
  = dict_get (fst (fst e)) plain_server_resource.
Proof.
  intros He. cbn in He.
  repeat (destruct He as [<-|He]; [reflexivity|]). destruct He.
Defined.

Lemma resource_definition_ignores_other_keys_witness :
  hot_validate_resource_definition "server" (VRef 0) server_resource_state
  = hot_validate_resource_definition "server" (VRef 2) server_resource_state.
Proof.
  exact (resource_definition_ignores_other_keys "type" "properties"
           "metadata" "depends_on" "deletion_policy" "update_policy"
           "description" "server" 0 server_resource 2 plain_server_resource
           server_resource_state eq_refl eq_refl server_resources_agree).
Defined.

Lemma metadata_in_schema :
  In ("metadata", [T_Mapping; T_Function], "object") hot_resource_schema.
Proof. right. right. left. reflexivity. Defined.

Lemma resource_definition_rejects_none_witness :
  exists err,
    hot_validate_resource_definition "server" (VRef 0) none_metadata_state
    = (Raise err, none_metadata_state).
Proof.
  exact (resource_definition_rejects_none "type" "properties" "metadata"
           "depends_on" "deletion_policy" "update_policy" "description"
           "server" 0 _ none_metadata_state
           ("metadata", [T_Mapping; T_Function], "object")
           eq_refl metadata_in_schema eq_refl).
Defined.

Lemma string_is_no_mapping d :
  view_of (heap example_state) (VStr "my type") <> Object (ODict d).
Proof. discriminate. Defined.

(** A string that holds the key as a substring is no resource definition
    either. *)
Lemma resource_definition_not_mapping_witness :
  exists err,
    hot_validate_resource_definition "server" (VStr "my type") example_state
    = (Raise err, example_state).
Proof.
  exact (resource_definition_not_mapping "type" "properties" "metadata"
           "depends_on" "deletion_policy" "update_policy" "description"
           "server" (VStr "my type") example_state string_is_no_mapping).
Defined.

(** The definitions {"condA": True, "condB": "maybe"}: one evaluation. *)
Lemma resolve_conditions_evaluates_once_witness :
  exists funcs n,
    resolve_calls mixed_resolved_state
    = resolve_calls example_state ++ funcs /\
    Forall2 (parsed_from nat plain_parse_condition 7)
      (firstn n
         (unresolved [("condA", VBool true); ("condB", VStr "maybe")]))
      funcs /\
    (forall r, Ok (VRef 2) = Ok r ->
       Forall2 (parsed_from nat plain_parse_condition 7)
         (unresolved [("condA", VBool true); ("condB", VStr "maybe")])
         funcs).
Proof.
  exact (resolve_conditions_evaluates_once nat
           [("condA", VBool true); ("condB", VStr "maybe")]
           plain_parse_condition plain_resolve 7 example_state
           (Ok (VRef 2)) mixed_resolved_state eq_refl).
Defined.

Lemma resolve_conditions_frame_witness :
  _conditions mixed_resolved_state = _conditions example_state /\
  (exists new, heap mixed_resolved_state = heap example_state ++ new) /\
  forall r, Ok (VRef 2) = Ok r ->
    r = VRef (length (heap example_state)) /\
    exists d,
      heap mixed_resolved_state !! length (heap example_state)
      = Some (ODict d).
Proof.
  exact (resolve_conditions_frame nat
           [("condA", VBool true); ("condB", VStr "maybe")]
           plain_parse_condition plain_resolve 7 example_state
           (Ok (VRef 2)) mixed_resolved_state eq_refl).
Defined.

Lemma resolve_conditions_keys_witness :
  exists d,
    VRef 2 = VRef (length (heap example_state)) /\
    heap mixed_resolved_state !! length (heap example_state)
    = Some (ODict d) /\
    map fst d = map fst [("condA", VBool true); ("condB", VStr "maybe")] /\
    forall key b,
      In (key, VBool b) [("condA", VBool true); ("condB", VStr "maybe")] ->
      dict_get key d = Some (VBool b).
Proof.
  exact (resolve_conditions_keys nat
           [("condA", VBool true); ("condB", VStr "maybe")]
           plain_parse_condition plain_resolve 7 example_state (VRef 2)
           mixed_resolved_state mixed_definitions_distinct eq_refl).
Defined.

(** validate_condition_definitions on a template whose conditions are
    resolved already: the definitions are evaluated again, and the cache is
    the one of before. *)
Lemma validate_condition_definitions_state_witness :
  snd (validate_condition_definitions nat [("condA", VStr "maybe")]
         plain_parse_condition plain_resolve 7 string_cache_state)
  = mkState
      (heap string_cache_state ++ [ODict [("condA", VStr "maybe")]])
      (VRef 2) [VStr "maybe"; VStr "maybe"] /\
  snd (validate_condition_definitions nat [("condA", VStr "maybe")]
         plain_parse_condition plain_resolve 7 string_cache_state)
  = snd (resolve_conditions nat [("condA", VStr "maybe")]
           plain_parse_condition plain_resolve 7 string_cache_state) /\
  _conditions
    (snd (validate_condition_definitions nat [("condA", VStr "maybe")]
            plain_parse_condition plain_resolve 7 string_cache_state))
  = _conditions string_cache_state /\
  forall e,
    fst (resolve_conditions nat [("condA", VStr "maybe")]
           plain_parse_condition plain_resolve 7 string_cache_state)
    = Raise e ->
    fst (validate_condition_definitions nat [("condA", VStr "maybe")]
           plain_parse_condition plain_resolve 7 string_cache_state)
    = Raise e.
Proof.
  split; [reflexivity|].
  exact (validate_condition_definitions_state nat [("condA", VStr "maybe")]
           plain_parse_condition plain_resolve 7 string_cache_state).
Defined.

Lemma resolved_state_cached : _conditions resolved_state <> VNone.
Proof. discriminate. Defined.

Lemma condition_lookup_reads_only_witness :
  snd (get_res_condition nat "condition" "resources" "condition"
         [("condA", VBool false)] hot_has_condition_section
         plain_parse_condition plain_resolve 7 (VRef 1) "server"
         resolved_state) = resolved_state /\
  snd (get_output_condition nat "condition" "outputs" "condition"
         [("condA", VBool false)] hot_has_condition_section
         plain_parse_condition plain_resolve 7 (VRef 1) "out1"
         resolved_state) = resolved_state.
Proof.
  exact (condition_lookup_reads_only nat "condition" "resources" "condition"
           "outputs" "condition" [("condA", VBool false)]
           hot_has_condition_section plain_parse_condition plain_resolve
           7 (VRef 1) "server" resolved_state resolved_state_cached).
Defined.

(** A snippet whose condition is a boolean already, as the copy of a shared
    snippet is after its first turn. *)
Definition applied_snippet_state : state :=
  mkState
    [ODict [("out1", VRef 1)];
     ODict [("value", VNone); ("condition", VBool false)];
     ODict [("condA", VBool false)]]
    (VRef 2) [].

Lemma false_is_no_name name : VBool false <> VStr name.
Proof. discriminate. Defined.

Lemma get_condition_not_a_name_witness :
  get_condition nat "condition" [("condA", VBool false)]
    hot_has_condition_section plain_parse_condition plain_resolve
    (VRef 1) 7 "outputs.out1.condition" applied_snippet_state
  = (Raise (InvalidConditionReference (VBool false)
              "outputs.out1.condition"),
     applied_snippet_state).
Proof.
  exact (get_condition_not_a_name nat "condition" [("condA", VBool false)]
           hot_has_condition_section plain_parse_condition plain_resolve
           1 _ (VBool false) 2 _ 7 "outputs.out1.condition"
           applied_snippet_state eq_refl eq_refl eq_refl eq_refl
           false_is_no_name eq_refl eq_refl).
Defined.

Definition cached_suppressed_state : state :=
  mkState
    (heap resolved_state ++
     [ODict [("out1", VRef 4)];
      ODict [("value", VNone); ("condition", VBool false)]])
    (VRef 2) [].

Lemma parse_outputs_conditions_cached_witness :
  parse_outputs_conditions nat "condition" "outputs" "condition" "value"
    [("condA", VStr "boom")] hot_has_condition_section
    plain_parse_condition plain_resolve (VRef 0) 7 resolved_state
  = Some (Ok (VRef 3), cached_suppressed_state) /\
  _conditions cached_suppressed_state = _conditions resolved_state /\
  resolve_calls cached_suppressed_state = resolve_calls resolved_state.
Proof.
  split; [reflexivity|].
  exact (parse_outputs_conditions_cached nat "condition" "outputs"
           "condition" "value" [("condA", VStr "boom")]
           hot_has_condition_section plain_parse_condition plain_resolve
           (VRef 0) 7 resolved_state (Ok (VRef 3)) cached_suppressed_state
           resolved_state_cached eq_refl).
Defined.

Lemma default_has_no_condition_section w :
  default_has_condition_section w = false.
Proof. reflexivity. Defined.

Lemma parse_outputs_conditions_is_deepcopy_witness :
  exists c m h1,
    deepcopy (VRef 0) (heap example_state) = Some (VRef c, m, h1) /\
    h1 !! c = Some (copy_of m (ODict [("out1", VRef 1)])) /\
    parse_outputs_conditions nat "condition" "outputs" "condition" "value"
      [("condA", VStr "boom")] default_has_condition_section
      plain_parse_condition plain_resolve (VRef 0) 7 example_state
    = Some (Ok (VRef c), set_heap example_state h1).
Proof.
  exact (parse_outputs_conditions_is_deepcopy nat "condition" "outputs"
           "condition" "value" [("condA", VStr "boom")]
           default_has_condition_section plain_parse_condition plain_resolve
           0 [("out1", VRef 1)] 7 example_state
           default_has_no_condition_section eq_refl eq_refl).
Defined.

(** outputs = ["x", outputs], a list that holds itself. *)
Definition list_outputs_state : state :=
  mkState [OList [VStr "x"; VRef 0]] VNone [].

Lemma list_is_no_mapping d :
  view_of (heap list_outputs_state) (VRef 0) <> Object (ODict d).
Proof. discriminate. Defined.

Lemma list_is_no_function fn_name args :
  view_of (heap list_outputs_state) (VRef 0) <> Object (OFunc fn_name args).
Proof. discriminate. Defined.

Lemma parse_outputs_conditions_not_mapping_witness :
  parse_outputs_conditions nat "condition" "outputs" "condition" "value"
    [("condA", VBool false)] hot_has_condition_section
    plain_parse_condition plain_resolve (VRef 0) 7 list_outputs_state
  = Some (Raise (AttributeError "'list' object has no attribute 'items'"),
          mkState [OList [VStr "x"; VRef 0]; OList [VStr "x"; VRef 1]]
            VNone []) /\
  exists m h1 t,
    deepcopy (VRef 0) (heap list_outputs_state)
    = Some (rename m (VRef 0), m, h1) /\
    (is_ref (VRef 0) = false -> h1 = heap list_outputs_state) /\
    type_of (heap list_outputs_state) (VRef 0) = Some t /\
    parse_outputs_conditions nat "condition" "outputs" "condition" "value"
      [("condA", VBool false)] hot_has_condition_section
      plain_parse_condition plain_resolve (VRef 0) 7 list_outputs_state
    = Some (Raise (AttributeError
                     ("'" ++ type_name t
                          ++ "' object has no attribute 'items'")%string),
            set_heap list_outputs_state h1).
Proof.
  split; [reflexivity|].
  exact (parse_outputs_conditions_not_mapping nat "condition" "outputs"
           "condition" "value" [("condA", VBool false)]
           hot_has_condition_section plain_parse_condition plain_resolve
           (VRef 0) 7 list_outputs_state eq_refl eq_refl
           list_is_no_mapping list_is_no_function).
Defined.

(** Three outputs: the first without a condition, the second with a
    condition that is not defined, the third with one that is. *)
Definition three_outputs_store : list object :=
  [ODict [("out0", VRef 1); ("out1", VRef 2); ("out2", VRef 3)];
   ODict [("value", VStr "y")];
   ODict [("value", VStr "x"); ("condition", VStr "condA")];
   ODict [("value", VStr "z"); ("condition", VStr "condB")]].

Definition three_outputs_state : state := mkState three_outputs_store VNone [].

Definition three_outputs_copy : list object :=
  [ODict [("out0", VRef 5); ("out1", VRef 6); ("out2", VRef 7)];
   ODict [("value", VStr "y")];
   ODict [("value", VStr "x"); ("condition", VStr "condA")];
   ODict [("value", VStr "z"); ("condition", VStr "condB")]].

Definition three_outputs_failed_state : state :=
  mkState
    (three_outputs_store ++ three_outputs_copy
       ++ [ODict [("condB", VBool true)]])
    (VRef 8) [].

Lemma first_output_unconditional kv :
  In kv [("out0", VRef 5)] ->
  hot_has_condition_section
    (view_of (three_outputs_store ++ three_outputs_copy) (snd kv)) = false.
Proof. intros [<-|[]]. reflexivity. Defined.

Lemma parse_outputs_conditions_fail_fast_witness :
  parse_outputs_conditions nat "condition" "outputs" "condition" "value"
    [("condB", VBool true)] hot_has_condition_section
    plain_parse_condition plain_resolve (VRef 0) 7 three_outputs_state
  = Some (Raise (InvalidConditionReference (VStr "condA")
                   "outputs.out1.condition"),
          three_outputs_failed_state).
Proof.
  exact (parse_outputs_conditions_fail_fast nat "condition" "outputs"
           "condition" "value" [("condB", VBool true)]
           hot_has_condition_section plain_parse_condition plain_resolve
           (VRef 0) 7 three_outputs_state 4
           [(3, 7); (2, 6); (1, 5); (0, 4)]
           (three_outputs_store ++ three_outputs_copy)
           [("out0", VRef 5)] "out1" (VRef 6) [("out2", VRef 7)]
           (InvalidConditionReference (VStr "condA")
              "outputs.out1.condition")
           three_outputs_failed_state
           eq_refl eq_refl first_output_unconditional eq_refl eq_refl).
Defined.

Lemma parse_outputs_conditions_keeps_rest_witness :
  exists m h1 c,
    deepcopy (VRef 0) (heap example_state) = Some (VRef c, m, h1) /\
    VRef 2 = VRef c /\
    (forall a y, memo_get a m = Some y ->
       (forall key, In (key, VRef a) [("out1", VRef 1)] ->
          hot_has_condition_section (view_of h1 (VRef y)) = false) ->
       exists o,
         heap example_state !! a = Some o /\
         heap suppressed_state !! y = Some (copy_of m o))
    /\
    (forall key v, In (key, v) [("out1", VRef 1)] ->
       hot_has_condition_section (view_of h1 (rename m v)) = true ->
       exists a' ds final,
         rename m v = VRef a' /\
         h1 !! a' = Some (ODict ds) /\
         heap suppressed_state !! a' = Some (ODict final) /\
         forall k, k <> "condition" -> k <> "value" ->
           dict_get k final = dict_get k ds).
Proof.
  exact (parse_outputs_conditions_keeps_rest nat "condition" "outputs"
           "condition" "value" [("condA", VBool false)]
           hot_has_condition_section plain_parse_condition plain_resolve
           0 [("out1", VRef 1)] 7 example_state (VRef 2) suppressed_state
           eq_refl eq_refl eq_refl example_outputs_apart eq_refl).
Defined.
